(** * coherent_rates: the periodic-system pipeline of [system.py]

    A shallow embedding of [src/coherent_rates/system.py].  Floating-point
    numbers are idealised as real numbers, [np.complex128] as pairs of
    reals, and the routines imported from [surface_potential_analysis]
    are an explicit interface the embedded functions are parameterised by. *)

From Stdlib Require Import String Reals List ZArith Lra Lia Bool.
From Stdlib Require Import FunctionalExtensionality.
Import ListNotations.
Open Scope R_scope.

(** ** Complex numbers ([np.complex128], idealised) *)

Definition C : Type := (R * R)%type.

Definition RtoC (x : R) : C := (x, 0).
Definition Cre (z : C) : R := fst z.
Definition Cim (z : C) : R := snd z.
Definition Cadd (a b : C) : C := (fst a + fst b, snd a + snd b).
Definition Cmul (a b : C) : C :=
  (fst a * fst b - snd a * snd b, fst a * snd b + snd a * fst b).
Definition Cconj (a : C) : C := (fst a, - snd a).
(** [z * r] and [z / r] for a real scalar [r]. *)
Definition Cscale (a : C) (r : R) : C := (fst a * r, snd a * r).
Definition Cdivr (a : C) (r : R) : C := (fst a / r, snd a / r).
(** [np.exp(1j * theta)] for a real [theta]. *)
Definition Cexp_i (theta : R) : C := (cos theta, sin theta).
Definition Cnorm2 (a : C) : R := fst a * fst a + snd a * snd a.
Definition Cabs (a : C) : R := sqrt (Cnorm2 a).

Definition Czero : C := RtoC 0.
Definition Cone : C := RtoC 1.

(** [sum] of an array. *)
Definition Rsum (l : list R) : R := fold_right Rplus 0 l.
Definition Csum (l : list C) : C := fold_right Cadd Czero l.

(** ** Python values *)

(** [tuple[int]] and [TupleBasis(axis)] are one-element tuples; [t[0]] is
    [item0 t]. *)
Record tuple1 (A : Type) : Type := Tuple1 { item0 : A }.
Arguments Tuple1 {A} _.
Arguments item0 {A} _.

(** The exceptions a call can end with. *)
Inductive Exception : Type :=
| BasisMismatch
| NumericalFailure
| InvalidConfig.

Inductive Result (A : Type) : Type :=
| Ok (a : A)
| Raise (e : Exception).
Arguments Ok {A} _.
Arguments Raise {A} _.

Definition rbind {A B} (r : Result A) (f : A -> Result B) : Result B :=
  match r with
  | Ok a => f a
  | Raise e => Raise e
  end.

Declare Scope result_scope.
Delimit Scope result_scope with result.
Notation "x <- r ;; k" := (rbind r (fun x => k))
  (at level 61, r at next level, right associativity) : result_scope.

(** ** The data model of [system.py] *)

Record PeriodicSystem : Type := {
  id : string;
  barrier_energy : R;
  lattice_constant : R;
  mass : R
}.

Record PeriodicSystemConfig : Type := {
  shape : tuple1 Z;
  resolution : tuple1 Z;
  n_bands : Z
}.

(** [scipy.constants]: [electron_volt], [k] (Boltzmann), [hbar]. *)
Definition electron_volt : R := 1602176634 / 10 ^ 28.
Definition k : R := 1380649 / 10 ^ 29.
Definition hbar : R := (662607015 / 10 ^ 42) / (2 * PI).

Definition HYDROGEN_NICKEL_SYSTEM : PeriodicSystem := {|
  id := "HNi";
  barrier_energy := 25593864192 / 10 ^ 30;
  lattice_constant := (246 / 10 ^ 12) / sqrt 2;
  mass := 167 / 10 ^ 29
|}.

Definition SODIUM_COPPER_SYSTEM : PeriodicSystem := {|
  id := "NaCu";
  barrier_energy := (55 / 10 ^ 3) * electron_volt;
  lattice_constant := 3615 / 10 ^ 13;
  mass := 38175458 / 10 ^ 33
|}.

Definition LITHIUM_COPPER_SYSTEM : PeriodicSystem := {|
  id := "LiCu";
  barrier_energy := (45 / 10 ^ 3) * electron_volt;
  lattice_constant := 3615 / 10 ^ 13;
  mass := 1152414898 / 10 ^ 35
|}.

(** [PeriodicSystemConfig(shape, resolution, n_bands)]: the [__init__] the
    [@dataclass] decorator generates stores its three arguments; the class
    has no [__post_init__]. *)
Definition PeriodicSystemConfig_init (shape resolution : tuple1 Z)
    (n_bands : Z) : Result PeriodicSystemConfig :=
  Ok {| shape := shape; resolution := resolution; n_bands := n_bands |}.

(** ** Bases *)

(** Modelled from the spec: the basis classes are imported from
    [surface_potential_analysis.basis]; only their constructor calls and
    attribute reads are in [system.py].  A basis descriptor holds the
    arguments it was constructed from: the unit-cell width [delta_x], the
    number [n] of components it keeps, and what fixes its number
    [fundamental_n] of fundamental samples. *)
Inductive Basis : Type :=
| FundamentalBasis (n : Z)
| EvenlySpacedBasis (n step offset : Z)
| FundamentalPositionBasis (delta_x : list R) (n : Z)
| TransformedPositionBasis (delta_x : list R) (n fundamental_n : Z)
| EvenlySpacedTransformedPositionBasis (delta_x : list R) (n step offset : Z)
| ExplicitStackedBasisWithLength (vectors : list (list C)).

(** Modelled from the spec: the fundamental momentum-type basis of
    resolution [n] keeps all [n] of its [n] Fourier components. *)
Definition FundamentalTransformedPositionBasis (delta_x : list R) (n : Z)
    : Basis :=
  TransformedPositionBasis delta_x n n.

Definition TransformedPositionBasis1d := TransformedPositionBasis.
Definition FundamentalTransformedPositionBasis1d :=
  FundamentalTransformedPositionBasis.

Definition TupleBasis (axis : Basis) : tuple1 Basis := Tuple1 axis.

(** Modelled from the spec: the attribute [basis.n], the number of
    components kept. *)
Definition basis_n (b : Basis) : Z :=
  match b with
  | FundamentalBasis n => n
  | EvenlySpacedBasis n _ _ => n
  | FundamentalPositionBasis _ n => n
  | TransformedPositionBasis _ n _ => n
  | EvenlySpacedTransformedPositionBasis _ n _ _ => n
  | ExplicitStackedBasisWithLength vectors => Z.of_nat (length vectors)
  end.

(** Modelled from the spec: the attribute [basis.fundamental_n], the total
    number of samples; a super-cell of [step] replicas of [n] samples has
    [n * step]. *)
Definition basis_fundamental_n (b : Basis) : Z :=
  match b with
  | FundamentalBasis n => n
  | EvenlySpacedBasis n step _ => (n * step)%Z
  | FundamentalPositionBasis _ n => n
  | TransformedPositionBasis _ _ fundamental_n => fundamental_n
  | EvenlySpacedTransformedPositionBasis _ n step _ => (n * step)%Z
  | ExplicitStackedBasisWithLength vectors =>
      match vectors with
      | [] => 0%Z
      | v :: _ => Z.of_nat (length v)
      end
  end.

(** Modelled from the spec: the attribute [basis.delta_x], the width of the
    cell; bases without a length have none. *)
Definition basis_delta_x (b : Basis) : list R :=
  match b with
  | FundamentalPositionBasis delta_x _ => delta_x
  | TransformedPositionBasis delta_x _ _ => delta_x
  | EvenlySpacedTransformedPositionBasis delta_x _ _ _ => delta_x
  | _ => []
  end.

(** [{"basis": ..., "data": ...}] records. *)
Record Potential : Type := {
  potential_basis : tuple1 Basis;
  potential_data : list C
}.

Record Operator : Type := {
  operator_basis : Basis * Basis;
  operator_data : list (list C)
}.

(** A diagonal operator keeps its diagonal only; a Hermitian one has real
    entries there. *)
Record DiagonalOperator : Type := {
  diagonal_basis : Basis * Basis;
  diagonal_data : list R
}.

Record StateVector : Type := {
  state_basis : Basis;
  state_data : list C
}.

(** A time basis, held as the timestamps it stands for; [times.n] is their
    number. *)
Definition TimeBasis : Type := list R.
Definition times_n (times : TimeBasis) : nat := length times.

Record StateVectorList : Type := {
  states_basis : TimeBasis * Basis;
  states_data : list (list C)
}.

Record ValueList : Type := {
  values_basis : TimeBasis;
  values_data : list C
}.

(** ** Arrays *)

Fixpoint map2 {A B D : Type} (f : A -> B -> D) (l : list A) (l' : list B)
    : list D :=
  match l, l' with
  | a :: t, b :: t' => f a b :: map2 f t t'
  | _, _ => []
  end.

Fixpoint sequence {A : Type} (l : list (Result A)) : Result (list A) :=
  match l with
  | [] => Ok []
  | r :: t =>
      match r, sequence t with
      | Ok a, Ok t' => Ok (a :: t')
      | Raise e, _ => Raise e
      | Ok _, Raise e => Raise e
      end
  end.

(** [np.conj(a) . b] *)
Definition inner (a b : list C) : C :=
  Csum (map2 (fun x y => Cmul (Cconj x) y) a b).

(** The squared norm and the norm of an amplitude vector. *)
Definition norm2 (v : list C) : R := Rsum (map Cnorm2 v).
Definition norm (v : list C) : R := sqrt (norm2 v).

(** Amplitudes [cs] whose squared magnitudes are the squares of [bs / n]. *)
Definition weighted_by (n : R) (bs : list R) (cs : list C) : Prop :=
  Forall2 (fun b c => Cnorm2 c = (b / n) * (b / n)) bs cs.

Definition dot (row v : list C) : C := Csum (map2 Cmul row v).
Definition matvec (m : list (list C)) (v : list C) : list C :=
  map (fun row => dot row v) m.

(** The conjugate transpose of a matrix with [n] columns. *)
Definition dagger (n : nat) (m : list (list C)) : list (list C) :=
  map (fun j => map (fun row => Cconj (nth j row Czero)) m) (seq 0 n).

(** [sum_{i < n} f i] *)
Fixpoint Cbig (n : nat) (f : nat -> C) : C :=
  match n with
  | O => Czero
  | S n' => Cadd (Cbig n' f) (f n')
  end.

(** A matrix whose rows all have [n] entries. *)
Definition rows_have (n : nat) (m : list (list C)) : bool :=
  forallb (fun row => Nat.eqb (length row) n) m.

(** A square matrix [m] with [m^dagger m = 1]. *)
Definition unitary (m : list (list C)) : Prop :=
  rows_have (length m) m = true
  /\ forall x, length x = length m ->
       matvec (dagger (length m) m) (matvec m x) = x.

(** ** The interface of [surface_potential_analysis]

    The routines [system.py] imports and does not define.  They are pure;
    converting a state vector can refuse its argument. *)
Class SurfacePotentialAnalysis : Type := {
  (** [BlochWavefunctionListWithEigenvaluesList] *)
  Wavepacket : Type;
  convert_potential_to_basis : Potential -> tuple1 Basis -> Potential;
  stacked_basis_as_fundamental_momentum_basis : tuple1 Basis -> tuple1 Basis;
  stacked_basis_as_fundamental_position_basis : tuple1 Basis -> tuple1 Basis;
  total_surface_hamiltonian : Potential -> R -> list R -> Operator;
  fundamental_stacked_basis_from_shape : tuple1 Z -> tuple1 Basis;
  generate_wavepacket :
    (list R -> Operator) -> Basis -> tuple1 Basis -> Wavepacket;
  get_full_bloch_hamiltonian : Wavepacket -> DiagonalOperator;
  convert_state_vector_to_basis : StateVector -> Basis -> Result StateVector;
  get_periodic_x_operator : Basis -> tuple1 Z -> Operator
}.

(** ** Runs

    A run threads the numbers [np.random.rand] will yield and a trace of
    the two constructions worth counting: each call of [get_hamiltonian]
    and each call of [get_periodic_x_operator]. *)
Inductive Event : Type :=
| BuildHamiltonian
| BuildOperator.

Record World : Type := {
  rand : nat -> R;
  cursor : nat;
  trace : list Event
}.

Definition M (A : Type) : Type := World -> Result A * World.

Definition ret {A} (a : A) : M A := fun w => (Ok a, w).

Definition bind {A B} (m : M A) (f : A -> M B) : M B :=
  fun w =>
    match m w with
    | (Ok a, w') => f a w'
    | (Raise e, w') => (Raise e, w')
    end.

Definition lift {A} (r : Result A) : M A := fun w => (r, w).

(** The world after one more event, and after [n] more random numbers. *)
Definition logged (e : Event) (w : World) : World :=
  {| rand := rand w; cursor := cursor w; trace := trace w ++ [e] |}.
Definition advanced (n : nat) (w : World) : World :=
  {| rand := rand w; cursor := (cursor w + n)%nat; trace := trace w |}.

Definition record (e : Event) : M unit := fun w => (Ok tt, logged e w).

(** [np.random.rand(n)] *)
Definition random_rand (n : nat) : M (list R) :=
  fun w => (Ok (map (rand w) (seq (cursor w) n)), advanced n w).

Declare Scope run_scope.
Delimit Scope run_scope with run.
Notation "x <- m ;; k" := (bind m (fun x => k))
  (at level 61, m at next level, right associativity) : run_scope.
Notation "m ;;; k" := (bind m (fun _ => k))
  (at level 61, right associativity) : run_scope.

Definition count_event (e : Event) (t : list Event) : nat :=
  length (filter (fun e' =>
                    match e, e' with
                    | BuildHamiltonian, BuildHamiltonian => true
                    | BuildOperator, BuildOperator => true
                    | _, _ => false
                    end) t).

(** ** PotentialModel *)

Definition get_potential (system : PeriodicSystem) : Potential :=
  let delta_x := sqrt 3 * lattice_constant system / 2 in
  let axis := FundamentalTransformedPositionBasis1d [delta_x] 3 in
  let vector :=
    map (fun c => RtoC (0.25 * barrier_energy system * c * sqrt 3))
        [2; -1; -1] in
  {| potential_basis := TupleBasis axis; potential_data := vector |}.

Section Pipeline.

Context {lib : SurfacePotentialAnalysis}.

Definition get_interpolated_potential (system : PeriodicSystem)
    (resolution : tuple1 Z) : Potential :=
  let potential := get_potential system in
  let old := item0 (potential_basis potential) in
  let basis :=
    TupleBasis
      (TransformedPositionBasis1d (basis_delta_x old) (basis_n old)
                                  (item0 resolution)) in
  let scaled_potential :=
    map (fun v => Cscale v (sqrt (IZR (item0 resolution) / IZR (basis_n old))))
        (potential_data potential) in
  convert_potential_to_basis
    {| potential_basis := basis; potential_data := scaled_potential |}
    (stacked_basis_as_fundamental_momentum_basis basis).

Definition get_extended_interpolated_potential (system : PeriodicSystem)
    (shape resolution : tuple1 Z) : Potential :=
  let interpolated := get_interpolated_potential system resolution in
  let old := item0 (potential_basis interpolated) in
  let basis :=
    TupleBasis
      (EvenlySpacedTransformedPositionBasis
         (map (fun x => x * IZR (item0 shape)) (basis_delta_x old))
         (basis_n old) (item0 shape) 0) in
  let scaled_potential :=
    map (fun v =>
           Cscale v (sqrt (IZR (basis_fundamental_n (item0 basis))
                           / IZR (basis_n old))))
        (potential_data interpolated) in
  {| potential_basis := basis; potential_data := scaled_potential |}.

(** ** HamiltonianBuilder *)

Definition _get_full_hamiltonian (system : PeriodicSystem)
    (shape resolution : tuple1 Z) (bloch_fraction : option (list R))
    : Operator :=
  let bloch_fraction :=
    match bloch_fraction with
    | None => [0]
    | Some bloch_fraction => bloch_fraction
    end in
  let potential :=
    get_extended_interpolated_potential system shape resolution in
  let converted :=
    convert_potential_to_basis
      potential
      (stacked_basis_as_fundamental_position_basis
         (potential_basis potential)) in
  total_surface_hamiltonian converted (mass system) bloch_fraction.

(** The statement [TupleBasis(FundamentalBasis)] before the [return] builds
    a value nobody uses. *)
Definition _get_bloch_wavefunctions (system : PeriodicSystem)
    (config : PeriodicSystemConfig) : Wavepacket :=
  let hamiltonian_generator (bloch_fraction : list R) : Operator :=
    _get_full_hamiltonian system (Tuple1 1%Z) (resolution config)
                          (Some bloch_fraction) in
  generate_wavepacket
    hamiltonian_generator
    (EvenlySpacedBasis (n_bands config) 1 0)
    (fundamental_stacked_basis_from_shape (shape config)).

(** ** EigenbasisCompiler *)

(** The operator [get_hamiltonian] returns. *)
Definition compiled_hamiltonian (system : PeriodicSystem)
    (config : PeriodicSystemConfig) : DiagonalOperator :=
  get_full_bloch_hamiltonian (_get_bloch_wavefunctions system config).

Definition get_hamiltonian (system : PeriodicSystem)
    (config : PeriodicSystemConfig) : M DiagonalOperator :=
  (record BuildHamiltonian ;;;
   let wavefunctions := _get_bloch_wavefunctions system config in
   ret (get_full_bloch_hamiltonian wavefunctions))%run.

(** ** Propagator *)

(** Modelled from the spec: [solve_schrodinger_equation_diagonal] is
    imported from [surface_potential_analysis.dynamics.schrodinger.solve].
    For each timestamp [t] of [times], in their order, it multiplies each
    eigencomponent amplitude by [exp(-i * eigenvalue * t / hbar)]; a state
    with another number of amplitudes than the Hamiltonian has eigenvalues
    is refused. *)
Definition solve_schrodinger_equation_diagonal (initial_state : StateVector)
    (times : TimeBasis) (hamiltonian : DiagonalOperator)
    : Result StateVectorList :=
  if Nat.eqb (length (state_data initial_state))
             (length (diagonal_data hamiltonian))
  then
    Ok {| states_basis := (times, fst (diagonal_basis hamiltonian));
          states_data :=
            map (fun t =>
                   map2 (fun c e => Cmul c (Cexp_i (- (e * t / hbar))))
                        (state_data initial_state)
                        (diagonal_data hamiltonian))
                times |}
  else Raise BasisMismatch.

Definition solve_schrodinger_equation (system : PeriodicSystem)
    (config : PeriodicSystemConfig) (initial_state : StateVector)
    (times : TimeBasis) : M StateVectorList :=
  (hamiltonian <- get_hamiltonian system config ;;
   converted_initial <-
     lift (convert_state_vector_to_basis
             initial_state (fst (diagonal_basis hamiltonian))) ;;
   lift (solve_schrodinger_equation_diagonal
           converted_initial times hamiltonian))%run.

(** ** ISFEngine *)

(** Modelled from the spec: [apply_operator_to_state] is imported from
    [surface_potential_analysis.operator.operator].  Operator and state
    must share a basis before composition, so the state is first expressed
    in the operator's basis; then the operator's matrix is applied to the
    amplitudes.  A matrix whose rows do not match the amplitudes is
    refused. *)
Definition apply_operator_to_state (operator : Operator)
    (state : StateVector) : Result StateVector :=
  (converted <-
     convert_state_vector_to_basis state (snd (operator_basis operator)) ;;
   if rows_have (length (state_data converted)) (operator_data operator)
   then
     Ok {| state_basis := fst (operator_basis operator);
           state_data :=
             matvec (operator_data operator) (state_data converted) |}
   else Raise BasisMismatch)%result.

(** Modelled from the spec: [apply_operator_to_states] is imported from
    [surface_potential_analysis.operator.operator]; the operator is applied
    per time-slice. *)
Definition apply_operator_to_states (operator : Operator)
    (states : StateVectorList) : Result StateVectorList :=
  (slices <-
     sequence
       (map (fun data =>
               s <- apply_operator_to_state
                      operator
                      {| state_basis := snd (states_basis states);
                         state_data := data |} ;;
               Ok (state_data s))
            (states_data states)) ;;
   Ok {| states_basis :=
           (fst (states_basis states), fst (operator_basis operator));
         states_data := slices |})%result.

(** Modelled from the spec: [calculate_inner_products_elementwise] is
    imported from [surface_potential_analysis.state_vector.state_vector_list].
    Per time, the conjugate-linear inner product of the two states of that
    time, the second list expressed in the basis of the first; lists or
    states of different sizes are refused. *)
Definition calculate_inner_products_elementwise
    (state_list_0 state_list_1 : StateVectorList) : Result ValueList :=
  if Nat.eqb (length (states_data state_list_0))
             (length (states_data state_list_1))
  then
    (products <-
       sequence
         (map2 (fun data_0 data_1 =>
                  converted <-
                    convert_state_vector_to_basis
                      {| state_basis := snd (states_basis state_list_1);
                         state_data := data_1 |}
                      (snd (states_basis state_list_0)) ;;
                  if Nat.eqb (length data_0) (length (state_data converted))
                  then Ok (inner data_0 (state_data converted))
                  else Raise BasisMismatch)
               (states_data state_list_0) (states_data state_list_1)) ;;
     Ok {| values_basis := fst (states_basis state_list_0);
           values_data := products |})%result
  else Raise BasisMismatch.

Definition build_periodic_x_operator (basis : Basis) (direction : tuple1 Z)
    : M Operator :=
  (record BuildOperator ;;;
   ret (get_periodic_x_operator basis direction))%run.

Definition get_isf (system : PeriodicSystem) (config : PeriodicSystemConfig)
    (initial_state : StateVector) (times : TimeBasis)
    (direction : tuple1 Z) : M ValueList :=
  (operator <-
     build_periodic_x_operator (state_basis initial_state) direction ;;
   state_evolved <-
     solve_schrodinger_equation system config initial_state times ;;
   state_evolved_scattered <-
     lift (apply_operator_to_states operator state_evolved) ;;
   state_scattered <- lift (apply_operator_to_state operator initial_state) ;;
   state_scattered_evolved <-
     solve_schrodinger_equation system config state_scattered times ;;
   lift (calculate_inner_products_elementwise
           state_scattered_evolved state_evolved_scattered))%run.

Definition get_isf_from_hamiltonian (hamiltonian : DiagonalOperator)
    (operator : Operator) (initial_state : StateVector) (times : TimeBasis)
    : Result ValueList :=
  (converted_initial <-
     convert_state_vector_to_basis
       initial_state (fst (diagonal_basis hamiltonian)) ;;
   state_evolved <-
     solve_schrodinger_equation_diagonal converted_initial times hamiltonian ;;
   state_evolved_scattered <-
     apply_operator_to_states operator state_evolved ;;
   state_scattered <- apply_operator_to_state operator initial_state ;;
   converted_scattered <-
     convert_state_vector_to_basis
       state_scattered (fst (diagonal_basis hamiltonian)) ;;
   state_scattered_evolved <-
     solve_schrodinger_equation_diagonal
       converted_scattered times hamiltonian ;;
   calculate_inner_products_elementwise
     state_scattered_evolved state_evolved_scattered)%result.

(** ** ThermalSampler *)

Definition get_random_boltzmann_state (system : PeriodicSystem)
    (config : PeriodicSystemConfig) (temperature : R) : M StateVector :=
  (hamiltonian <- get_hamiltonian system config ;;
   let boltzmann_distribution :=
     map (fun e => exp (- e / (2 * k * temperature)))
         (diagonal_data hamiltonian) in
   u <- random_rand (length (diagonal_data hamiltonian)) ;;
   let random_phase := map (fun x => Cexp_i (2 * PI * x)) u in
   let normalization :=
     sqrt (Rsum (map (fun b => b * b) boltzmann_distribution)) in
   let boltzmann_state :=
     map2 (fun b p => Cdivr (Cmul (RtoC b) p) normalization)
          boltzmann_distribution random_phase in
   ret {| state_basis := fst (diagonal_basis hamiltonian);
          state_data := boltzmann_state |})%run.

Definition get_boltzmann_state (system : PeriodicSystem)
    (config : PeriodicSystemConfig) (temperature phase : R) : M StateVector :=
  (hamiltonian <- get_hamiltonian system config ;;
   let boltzmann_distribution :=
     map (fun e => exp (- e / (2 * k * temperature)))
         (diagonal_data hamiltonian) in
   let normalization :=
     sqrt (Rsum (map (fun b => b * b) boltzmann_distribution)) in
   let boltzmann_state :=
     map (fun b => Cdivr (Cmul (RtoC b) (Cexp_i phase)) normalization)
         boltzmann_distribution in
   ret {| state_basis := fst (diagonal_basis hamiltonian);
          state_data := boltzmann_state |})%run.

(** ** EnsembleAverager *)

(** The body of [for _i in range(n)], run [n] times on the accumulator. *)
Fixpoint for_range (n : nat) (body : list C -> M (list C)) (acc : list C)
    : M (list C) :=
  match n with
  | O => ret acc
  | S n' => (acc' <- body acc ;; for_range n' body acc')%run
  end.

Definition get_average_boltzmann_isf (system : PeriodicSystem)
    (config : PeriodicSystemConfig) (times : TimeBasis)
    (direction : tuple1 Z) (temperature : R) (n : Z) : M ValueList :=
  (let isf_data := repeat Czero (times_n times) in
   hamiltonian <- get_hamiltonian system config ;;
   operator <-
     build_periodic_x_operator (fst (diagonal_basis hamiltonian)) direction ;;
   isf_data <-
     for_range (Z.to_nat n)
       (fun isf_data =>
          state <- get_random_boltzmann_state system config temperature ;;
          isf <- lift (get_isf_from_hamiltonian
                         hamiltonian operator state times) ;;
          ret (map2 Cadd isf_data (values_data isf)))
       isf_data ;;
   let isf_data := map (fun v => Cdivr v (IZR n)) isf_data in
   ret {| values_data := isf_data; values_basis := times |})%run.

(** The world after [i] successive calls of [get_random_boltzmann_state]. *)
Fixpoint world_after_draws (system : PeriodicSystem)
    (config : PeriodicSystemConfig) (temperature : R) (i : nat) (w : World)
    : World :=
  match i with
  | O => w
  | S i' =>
      world_after_draws
        system config temperature i'
        (snd (get_random_boltzmann_state system config temperature w))
  end.

End Pipeline.

(** The value list standing for a missing entry. *)
Definition no_values : ValueList := {| values_basis := []; values_data := [] |}.

(** ** A small realisation of the interface

    Every basis describes the same space, so conversions keep the
    amplitudes; band [i] has energy [i]; the scattering operator shifts
    the components cyclically, as a momentum kick does. *)
Definition cyclic_shift (n shift : nat) : list (list C) :=
  map (fun i =>
         map (fun j => if Nat.eqb j ((i + shift) mod n) then Cone else Czero)
             (seq 0 n))
      (seq 0 n).

Definition band_basis (n : nat) : Basis :=
  ExplicitStackedBasisWithLength (cyclic_shift n 0).

Definition band_library : SurfacePotentialAnalysis := {|
  Wavepacket := list R;
  convert_potential_to_basis p b :=
    {| potential_basis := b; potential_data := potential_data p |};
  stacked_basis_as_fundamental_momentum_basis b :=
    TupleBasis (FundamentalTransformedPositionBasis
                  (basis_delta_x (item0 b)) (basis_fundamental_n (item0 b)));
  stacked_basis_as_fundamental_position_basis b :=
    TupleBasis (FundamentalPositionBasis
                  (basis_delta_x (item0 b)) (basis_fundamental_n (item0 b)));
  total_surface_hamiltonian p _ _ :=
    {| operator_basis := (item0 (potential_basis p), item0 (potential_basis p));
       operator_data := map (fun v => [v]) (potential_data p) |};
  fundamental_stacked_basis_from_shape s :=
    TupleBasis (FundamentalBasis (item0 s));
  generate_wavepacket _ save_bands _ :=
    map INR (seq 0 (Z.to_nat (basis_n save_bands)));
  get_full_bloch_hamiltonian w :=
    {| diagonal_basis := (band_basis (length w), band_basis (length w));
       diagonal_data := w |};
  convert_state_vector_to_basis s b :=
    Ok {| state_basis := b; state_data := state_data s |};
  get_periodic_x_operator b direction :=
    {| operator_basis := (b, b);
       operator_data :=
         cyclic_shift (Z.to_nat (basis_n b))
                      (Z.to_nat (item0 direction)) |}
|}.

Definition two_bands : PeriodicSystemConfig :=
  {| shape := Tuple1 1%Z; resolution := Tuple1 3%Z; n_bands := 2 |}.

Definition no_bands : PeriodicSystemConfig :=
  {| shape := Tuple1 1%Z; resolution := Tuple1 3%Z; n_bands := 0 |}.

(** The first band occupied, in the basis of two bands. *)
Definition ground_state : StateVector :=
  {| state_basis := band_basis 2; state_data := [Cone; Czero] |}.

(** The value a call returned, [d] if it raised. *)
Definition value_of {A : Type} (d : A) (r : Result A) : A :=
  match r with
  | Ok a => a
  | Raise _ => d
  end.

Definition still_world : World :=
  {| rand := fun _ => 0; cursor := 0; trace := [] |}.

(** The realisation of the interface in which no state can be converted. *)
Definition refusing_library : SurfacePotentialAnalysis := {|
  Wavepacket := @Wavepacket band_library;
  convert_potential_to_basis := @convert_potential_to_basis band_library;
  stacked_basis_as_fundamental_momentum_basis :=
    @stacked_basis_as_fundamental_momentum_basis band_library;
  stacked_basis_as_fundamental_position_basis :=
    @stacked_basis_as_fundamental_position_basis band_library;
  total_surface_hamiltonian := @total_surface_hamiltonian band_library;
  fundamental_stacked_basis_from_shape :=
    @fundamental_stacked_basis_from_shape band_library;
  generate_wavepacket := @generate_wavepacket band_library;
  get_full_bloch_hamiltonian := @get_full_bloch_hamiltonian band_library;
  convert_state_vector_to_basis _ _ := Raise BasisMismatch;
  get_periodic_x_operator := @get_periodic_x_operator band_library
|}.





(** * Theorems *)

(** ** Complex arithmetic *)

Lemma C_eq (a b : C) : fst a = fst b -> snd a = snd b -> a = b.
Proof. destruct a, b; simpl; intros; subst; reflexivity. Qed.

(** C7: for every PeriodicSystem, [get_potential] returns a potential of
    three Fourier components on one axis whose unit cell has width
    [sqrt 3 * lattice_constant / 2]; its amplitudes are one common factor
    ([sqrt 3 / 4]) times [2, -1, -1] times the barrier energy, and they sum
    to zero. *)
Theorem get_potential_three_harmonics (system : PeriodicSystem) :
  let p := get_potential system in
  let axis := item0 (potential_basis p) in
  basis_n axis = 3%Z
  /\ basis_fundamental_n axis = 3%Z
  /\ length (potential_data p) = 3%nat
  /\ basis_delta_x axis = [sqrt 3 * lattice_constant system / 2]
  /\ potential_data p =
       map (fun c => RtoC (sqrt 3 / 4 * (c * barrier_energy system)))
           [2; -1; -1]
  /\ Csum (potential_data p) = Czero.
Proof.
  cbv zeta. unfold get_potential; simpl.
  repeat split.
  - repeat (f_equal; try lra).
  - unfold Cadd, Czero, RtoC; simpl. apply C_eq; simpl; lra.
Qed.

(** C6, as the code has it: constructing a config never fails; whatever
    [shape], [resolution] and [n_bands] are given, the constructor returns
    the config that holds exactly these values. *)
Theorem config_construction_unchecked (s r : tuple1 Z) (nb : Z) :
  PeriodicSystemConfig_init s r nb
  = Ok {| shape := s; resolution := r; n_bands := nb |}
  /\ forall e, PeriodicSystemConfig_init s r nb <> Raise e.
Proof.
  split; [reflexivity | intros e H; discriminate H].
Qed.

(** C6, counterexample: [n_bands = 5] exceeds the resolution [3], and a
    shape entry is [0], yet construction succeeds rather than raising
    [InvalidConfig]. *)
Lemma config_construction_counterexample :
  (item0 (Tuple1 3%Z) < 5)%Z
  /\ (item0 (Tuple1 0%Z) <= 0)%Z
  /\ PeriodicSystemConfig_init (Tuple1 0%Z) (Tuple1 3%Z) 5
     <> Raise InvalidConfig.
Proof.
  repeat split; simpl; try lia. discriminate.
Qed.

(** ** Arrays *)

Lemma map2_length {A B D} (f : A -> B -> D) (l : list A) (l' : list B) :
  length l = length l' -> length (map2 f l l') = length l.
Proof.
  revert l'; induction l as [|a l IH]; intros [|b l'] H; simpl in *;
    try discriminate; auto.
Qed.

Lemma nth_map2 {A B D} (f : A -> B -> D) (l : list A) (l' : list B)
    (i : nat) (da : A) (db : B) (dd : D) :
  length l = length l' -> (i < length l)%nat ->
  nth i (map2 f l l') dd = f (nth i l da) (nth i l' db).
Proof.
  revert l' i; induction l as [|a l IH]; intros [|b l'] i H Hi; simpl in *;
    try discriminate; try lia.
  destruct i as [|i]; [reflexivity|]. apply IH; lia.
Qed.

Lemma Cnorm2_phase (c : C) (theta : R) :
  Cnorm2 (Cmul c (Cexp_i theta)) = Cnorm2 c.
Proof.
  unfold Cnorm2, Cmul, Cexp_i; simpl.
  replace ((fst c * cos theta - snd c * sin theta)
           * (fst c * cos theta - snd c * sin theta)
           + (fst c * sin theta + snd c * cos theta)
             * (fst c * sin theta + snd c * cos theta))
    with ((fst c * fst c + snd c * snd c)
          * (Rsqr (sin theta) + Rsqr (cos theta)))
    by (unfold Rsqr; ring).
  rewrite sin2_cos2; ring.
Qed.

Lemma norm2_rotated (f : R -> R) (cs : list C) (es : list R) :
  length cs = length es ->
  norm2 (map2 (fun c e => Cmul c (Cexp_i (f e))) cs es) = norm2 cs.
Proof.
  unfold norm2.
  revert es; induction cs as [|c cs IH]; intros [|e es] H; simpl in *;
    try discriminate; auto.
  rewrite Cnorm2_phase, IH by lia. reflexivity.
Qed.



(** ** Sums and matrices *)

Lemma Cnorm2_nonneg (c : C) : 0 <= Cnorm2 c.
Proof. unfold Cnorm2. nra. Qed.

Lemma Cadd_comm (a b : C) : Cadd a b = Cadd b a.
Proof. apply C_eq; simpl; ring. Qed.

Lemma Cadd_assoc (a b c : C) : Cadd a (Cadd b c) = Cadd (Cadd a b) c.
Proof. apply C_eq; simpl; ring. Qed.

Lemma Cadd_0_l (a : C) : Cadd Czero a = a.
Proof. apply C_eq; simpl; ring. Qed.

Lemma Cadd_0_r (a : C) : Cadd a Czero = a.
Proof. apply C_eq; simpl; ring. Qed.

Lemma Cmul_0_r (a : C) : Cmul a Czero = Czero.
Proof. apply C_eq; simpl; ring. Qed.

Lemma Cmul_add_distr_l (a b c : C) :
  Cmul a (Cadd b c) = Cadd (Cmul a b) (Cmul a c).
Proof. apply C_eq; simpl; ring. Qed.

Lemma Cmul_add_distr_r (a b c : C) :
  Cmul (Cadd a b) c = Cadd (Cmul a c) (Cmul b c).
Proof. apply C_eq; simpl; ring. Qed.

Lemma Cmul_0_l (a : C) : Cmul Czero a = Czero.
Proof. apply C_eq; simpl; ring. Qed.

Lemma Cconj_add (a b : C) : Cconj (Cadd a b) = Cadd (Cconj a) (Cconj b).
Proof. apply C_eq; simpl; ring. Qed.

Lemma Cconj_0 : Cconj Czero = Czero.
Proof. apply C_eq; simpl; ring. Qed.

Lemma Cbig_ext (n : nat) (f g : nat -> C) :
  (forall i, (i < n)%nat -> f i = g i) -> Cbig n f = Cbig n g.
Proof.
  induction n as [|n IH]; intro H; simpl; [reflexivity|].
  rewrite IH, H by (intros; try apply H; lia). reflexivity.
Qed.

Lemma Cbig_add (n : nat) (f g : nat -> C) :
  Cbig n (fun i => Cadd (f i) (g i)) = Cadd (Cbig n f) (Cbig n g).
Proof.
  induction n as [|n IH]; simpl.
  - symmetry; apply Cadd_0_l.
  - rewrite IH. apply C_eq; simpl; ring.
Qed.

Lemma Cbig_mul_l (n : nat) (c : C) (f : nat -> C) :
  Cbig n (fun i => Cmul c (f i)) = Cmul c (Cbig n f).
Proof.
  induction n as [|n IH]; simpl.
  - symmetry; apply Cmul_0_r.
  - rewrite IH. symmetry; apply Cmul_add_distr_l.
Qed.

Lemma Cbig_mul_r (n : nat) (c : C) (f : nat -> C) :
  Cbig n (fun i => Cmul (f i) c) = Cmul (Cbig n f) c.
Proof.
  induction n as [|n IH]; simpl.
  - symmetry; apply Cmul_0_l.
  - rewrite IH. symmetry; apply Cmul_add_distr_r.
Qed.

Lemma Cbig_conj (n : nat) (f : nat -> C) :
  Cconj (Cbig n f) = Cbig n (fun i => Cconj (f i)).
Proof.
  induction n as [|n IH]; simpl.
  - apply Cconj_0.
  - rewrite Cconj_add, IH. reflexivity.
Qed.

Lemma Cbig_zero (n : nat) : Cbig n (fun _ => Czero) = Czero.
Proof.
  induction n as [|n IH]; simpl; [reflexivity|].
  rewrite IH. apply Cadd_0_l.
Qed.

Lemma Cbig_swap (m n : nat) (f : nat -> nat -> C) :
  Cbig m (fun i => Cbig n (fun j => f i j))
  = Cbig n (fun j => Cbig m (fun i => f i j)).
Proof.
  induction m as [|m IH]; simpl.
  - symmetry; apply Cbig_zero.
  - rewrite IH. symmetry; apply Cbig_add.
Qed.

Lemma Cbig_shift (n : nat) (f : nat -> C) :
  Cbig (S n) f = Cadd (f O) (Cbig n (fun i => f (S i))).
Proof.
  induction n as [|n IH].
  - simpl. rewrite Cadd_0_l, Cadd_0_r. reflexivity.
  - change (Cbig (S (S n)) f) with (Cadd (Cbig (S n) f) (f (S n))).
    rewrite IH. simpl. symmetry; apply Cadd_assoc.
Qed.

Lemma Csum_map2_big {A B} (g : A -> B -> C) (da : A) (db : B)
    (a : list A) (b : list B) :
  length a = length b ->
  Csum (map2 g a b) = Cbig (length a) (fun i => g (nth i a da) (nth i b db)).
Proof.
  revert b; induction a as [|x a IH]; intros [|y b] H;
    try discriminate H; [reflexivity|].
  cbn [length]. rewrite Cbig_shift.
  cbn [map2 Csum fold_right nth]. f_equal.
  apply IH. simpl in H; lia.
Qed.

Lemma nth_matvec (m : list (list C)) (x : list C) (i : nat) :
  nth i (matvec m x) Czero = dot (nth i m []) x.
Proof.
  unfold matvec.
  change Czero with ((fun row => dot row x) []).
  apply map_nth.
Qed.

Lemma length_matvec (m : list (list C)) (x : list C) :
  length (matvec m x) = length m.
Proof. apply length_map. Qed.

Lemma rows_have_nth (n : nat) (m : list (list C)) (i : nat) :
  rows_have n m = true -> (i < length m)%nat -> length (nth i m []) = n.
Proof.
  unfold rows_have. rewrite forallb_forall. intros H Hi.
  apply Nat.eqb_eq. apply H. apply nth_In. exact Hi.
Qed.

Lemma nth_dagger (n : nat) (m : list (list C)) (j : nat) :
  (j < n)%nat ->
  nth j (dagger n m) [] = map (fun row => Cconj (nth j row Czero)) m.
Proof.
  intro Hj. unfold dagger.
  rewrite (nth_indep _ [] ((fun j => map (fun row => Cconj (nth j row Czero)) m) O))
    by (rewrite length_map, length_seq; exact Hj).
  rewrite (map_nth (fun j => map (fun row => Cconj (nth j row Czero)) m)
                   (seq 0 n) O j).
  rewrite seq_nth by exact Hj. reflexivity.
Qed.

Lemma length_dagger (n : nat) (m : list (list C)) : length (dagger n m) = n.
Proof. unfold dagger. rewrite length_map, length_seq. reflexivity. Qed.

Lemma nth_conj_column (m : list (list C)) (i j : nat) :
  (i < length m)%nat ->
  nth i (map (fun row => Cconj (nth j row Czero)) m) Czero
  = Cconj (nth j (nth i m []) Czero).
Proof.
  intro Hi.
  rewrite (nth_indep _ Czero ((fun row => Cconj (nth j row Czero)) []))
    by (rewrite length_map; exact Hi).
  apply (map_nth (fun row => Cconj (nth j row Czero))).
Qed.

(** [<m x | y> = <x | m^dagger y>] *)
Lemma inner_adjoint (n : nat) (m : list (list C)) (x y : list C) :
  rows_have n m = true -> length x = n -> length y = length m ->
  inner (matvec m x) y = inner x (matvec (dagger n m) y).
Proof.
  intros Hrows Hx Hy. unfold inner.
  rewrite (Csum_map2_big _ Czero Czero)
    by (rewrite length_matvec; symmetry; exact Hy).
  rewrite (Csum_map2_big _ Czero Czero)
    by (rewrite length_matvec, length_dagger; exact Hx).
  rewrite length_matvec, Hx.
  transitivity
    (Cbig (length m)
       (fun i => Cbig n
          (fun j => Cmul (Cmul (Cconj (nth j (nth i m []) Czero))
                               (Cconj (nth j x Czero)))
                         (nth i y Czero)))).
  - apply Cbig_ext. intros i Hi.
    rewrite nth_matvec. unfold dot.
    rewrite (Csum_map2_big _ Czero Czero)
      by (rewrite (rows_have_nth n m i Hrows Hi); symmetry; exact Hx).
    rewrite (rows_have_nth n m i Hrows Hi).
    rewrite Cbig_conj, <- Cbig_mul_r.
    apply Cbig_ext. intros j _. f_equal. apply C_eq; simpl; ring.
  - rewrite Cbig_swap. apply Cbig_ext. intros j Hj.
    rewrite nth_matvec, (nth_dagger n m j Hj). unfold dot.
    rewrite (Csum_map2_big _ Czero Czero)
      by (rewrite length_map; symmetry; exact Hy).
    rewrite length_map, <- Cbig_mul_l.
    apply Cbig_ext. intros i Hi.
    rewrite (nth_conj_column m i j Hi). apply C_eq; simpl; ring.
Qed.

Lemma inner_self (x : list C) : inner x x = RtoC (norm2 x).
Proof.
  unfold inner, norm2. induction x as [|c x IH]; simpl; [reflexivity|].
  rewrite IH. unfold Cnorm2. apply C_eq; simpl; ring.
Qed.

Lemma norm2_nonneg (x : list C) : 0 <= norm2 x.
Proof.
  unfold norm2. induction x as [|c x IH]; simpl; [lra|].
  pose proof (Cnorm2_nonneg c). lra.
Qed.

(** ** The Cauchy-Schwarz inequality *)

Lemma cauchy_schwarz_step (pr pi sr si x2 y2 X Y : R) :
  0 <= x2 -> 0 <= y2 -> 0 <= X -> 0 <= Y ->
  pr * pr + pi * pi = x2 * y2 ->
  sr * sr + si * si <= X * Y ->
  (pr + sr) * (pr + sr) + (pi + si) * (pi + si) <= (x2 + X) * (y2 + Y).
Proof.
  intros Hx Hy HX HY Hp Hs.
  assert (Hxy : 0 <= x2 * y2) by nra.
  assert (Ht : (pr * sr + pi * si) * (pr * sr + pi * si)
               <= x2 * y2 * (X * Y)).
  { assert (Hlag : (pr * sr + pi * si) * (pr * sr + pi * si)
                   = (pr * pr + pi * pi) * (sr * sr + si * si)
                     - (pr * si - pi * sr) * (pr * si - pi * sr)) by ring.
    rewrite Hlag, Hp.
    pose proof (Rle_0_sqr (pr * si - pi * sr)) as Hsq. unfold Rsqr in Hsq.
    assert (x2 * y2 * (sr * sr + si * si) <= x2 * y2 * (X * Y))
      by (apply Rmult_le_compat_l; assumption).
    lra. }
  assert (Hu : 0 <= x2 * Y + y2 * X) by nra.
  assert (Hsq : 4 * (x2 * y2 * (X * Y))
                <= (x2 * Y + y2 * X) * (x2 * Y + y2 * X)).
  { pose proof (Rle_0_sqr (x2 * Y - y2 * X)) as H. unfold Rsqr in H. nra. }
  assert (Hc : 2 * (pr * sr + pi * si) <= x2 * Y + y2 * X).
  { destruct (Rle_lt_dec (2 * (pr * sr + pi * si)) (x2 * Y + y2 * X))
      as [Hle | Hgt]; [exact Hle | exfalso].
    assert ((x2 * Y + y2 * X) * (x2 * Y + y2 * X)
            < (2 * (pr * sr + pi * si)) * (2 * (pr * sr + pi * si)))
      by nra.
    lra. }
  nra.
Qed.

Lemma cauchy_schwarz_squared (a b : list C) :
  Cnorm2 (inner a b) <= norm2 a * norm2 b.
Proof.
  revert b; induction a as [|x a IH]; intros [|y b].
  - unfold inner, norm2, Cnorm2; simpl. lra.
  - unfold inner, Cnorm2; simpl.
    pose proof (norm2_nonneg (y :: b)). unfold norm2 at 1; simpl. nra.
  - unfold inner, Cnorm2; simpl.
    pose proof (norm2_nonneg (x :: a)). unfold norm2 at 2; simpl. nra.
  - specialize (IH b).
    pose proof (norm2_nonneg a). pose proof (norm2_nonneg b).
    pose proof (Cnorm2_nonneg x). pose proof (Cnorm2_nonneg y).
    unfold inner in *. cbn [map2 Csum fold_right].
    unfold norm2 in *. cbn [map Rsum fold_right].
    set (S := fold_right Cadd Czero
                (map2 (fun x0 y0 => Cmul (Cconj x0) y0) a b)) in *.
    unfold Cnorm2 at 1. unfold Cadd; cbn [fst snd].
    apply cauchy_schwarz_step; try assumption.
    unfold Cnorm2, Cmul, Cconj; simpl. ring.
Qed.

Lemma cauchy_schwarz (a b : list C) :
  Cabs (inner a b) <= norm a * norm b.
Proof.
  unfold Cabs, norm.
  rewrite <- sqrt_mult by apply norm2_nonneg.
  apply sqrt_le_1_alt. apply cauchy_schwarz_squared.
Qed.

(** ** Results and traces *)

Lemma rbind_ok {A B} (r : Result A) (f : A -> Result B) (b : B) :
  rbind r f = Ok b -> exists a, r = Ok a /\ f a = Ok b.
Proof.
  destruct r as [a|e]; simpl; intro H; [eauto | discriminate].
Qed.

Lemma sequence_length {A} (l : list (Result A)) (l' : list A) :
  sequence l = Ok l' -> length l' = length l.
Proof.
  revert l'; induction l as [|r l IH]; intros l' H; simpl in H.
  - injection H as <-. reflexivity.
  - destruct r as [a|e]; [|discriminate].
    destruct (sequence l) as [t|e]; [|discriminate].
    injection H as <-. simpl. f_equal. apply IH. reflexivity.
Qed.

Lemma sequence_nth {A} (l : list (Result A)) (l' : list A) (i : nat)
    (d : Result A) (d' : A) :
  sequence l = Ok l' -> (i < length l)%nat -> nth i l d = Ok (nth i l' d').
Proof.
  revert l' i; induction l as [|r l IH]; intros l' i H Hi; simpl in *; [lia|].
  destruct r as [a|e]; [|discriminate].
  destruct (sequence l) as [t|e] eqn:Ht; [|discriminate].
  injection H as <-. destruct i as [|i]; simpl; [reflexivity|].
  apply IH; [reflexivity | lia].
Qed.

Lemma count_event_app (e : Event) (t t' : list Event) :
  count_event e (t ++ t') = (count_event e t + count_event e t')%nat.
Proof.
  unfold count_event. rewrite filter_app, length_app. reflexivity.
Qed.

(** ** Accumulating value lists *)

Lemma accumulated_length (L : nat) (isfs : list ValueList) (acc : list C) :
  length acc = L ->
  Forall (fun v => length (values_data v) = L) isfs ->
  length (fold_left (fun a v => map2 Cadd a (values_data v)) isfs acc) = L.
Proof.
  intros Hacc H; revert acc Hacc.
  induction H as [|v isfs Hv _ IH]; intros acc Hacc; simpl; [exact Hacc|].
  apply IH. rewrite map2_length; congruence.
Qed.

Lemma accumulated_nth (L : nat) (isfs : list ValueList) (acc : list C)
    (j : nat) :
  length acc = L ->
  Forall (fun v => length (values_data v) = L) isfs ->
  (j < L)%nat ->
  nth j (fold_left (fun a v => map2 Cadd a (values_data v)) isfs acc) Czero
  = Cadd (nth j acc Czero)
         (Csum (map (fun v => nth j (values_data v) Czero) isfs)).
Proof.
  intros Hacc H Hj; revert acc Hacc.
  induction H as [|v isfs Hv _ IH]; intros acc Hacc; simpl.
  - symmetry; apply Cadd_0_r.
  - rewrite IH by (rewrite map2_length; congruence).
    rewrite (nth_map2 Cadd acc (values_data v) j Czero Czero Czero)
      by congruence.
    symmetry; apply Cadd_assoc.
Qed.

Lemma nth_repeat_zero (n j : nat) : nth j (repeat Czero n) Czero = Czero.
Proof.
  revert j; induction n as [|n IH]; intros [|j]; simpl; auto.
Qed.

Lemma Cdivr_1 (c : C) : Cdivr c 1 = c.
Proof. apply C_eq; simpl; field. Qed.




Lemma norm_nonneg (x : list C) : 0 <= norm x.
Proof. apply sqrt_pos. Qed.

(** A unitary matrix applied to amplitudes it fits keeps their norm (and
    the empty matrix returns nothing). *)
Lemma unitary_norm (m : list (list C)) (x : list C) :
  unitary m -> rows_have (length x) m = true ->
  norm (matvec m x) <= norm x.
Proof.
  intros [Hsquare Hinv] Hrows.
  destruct m as [|r m'] eqn:Hm.
  - simpl. unfold norm at 1, norm2; simpl. rewrite sqrt_0. apply norm_nonneg.
  - rewrite <- Hm in *.
    assert (Hlen : length x = length m).
    { pose proof (rows_have_nth _ m O Hrows) as H1.
      pose proof (rows_have_nth _ m O Hsquare) as H2.
      rewrite Hm in H1, H2. simpl in H1, H2.
      rewrite <- H1 by lia. rewrite H2 by lia. rewrite Hm. reflexivity. }
    assert (Heq : norm2 (matvec m x) = norm2 x).
    { assert (H : RtoC (norm2 (matvec m x)) = RtoC (norm2 x)).
      { rewrite <- !inner_self.
        rewrite (inner_adjoint (length m) m x (matvec m x));
          [| rewrite <- Hlen; exact Hrows | exact Hlen | apply length_matvec].
        rewrite Hinv by exact Hlen. reflexivity. }
      unfold RtoC in H. congruence. }
    unfold norm. rewrite Heq. apply Rle_refl.
Qed.

(** ** Boltzmann amplitudes *)

Lemma Cnorm2_boltzmann (b theta n : R) :
  Cnorm2 (Cdivr (Cmul (RtoC b) (Cexp_i theta)) n) = (b / n) * (b / n).
Proof.
  unfold Cnorm2, Cdivr, Cmul, RtoC, Cexp_i; simpl.
  pose proof (sin2_cos2 theta) as H. unfold Rsqr in H.
  replace ((b / n) * (b / n))
    with ((b / n) * (b / n) * (sin theta * sin theta + cos theta * cos theta))
    by (rewrite H; ring).
  unfold Rdiv; ring.
Qed.

Lemma Cabs_boltzmann (b theta n : R) :
  Cabs (Cdivr (Cmul (RtoC b) (Cexp_i theta)) n) = Rabs (b / n).
Proof.
  unfold Cabs. rewrite Cnorm2_boltzmann.
  fold (Rsqr (b / n)). apply sqrt_Rsqr_abs.
Qed.

Lemma random_phases_weighted (n : R) (bs us : list R) :
  length bs = length us ->
  weighted_by n bs
    (map2 (fun b p => Cdivr (Cmul (RtoC b) p) n) bs
          (map (fun x => Cexp_i (2 * PI * x)) us)).
Proof.
  unfold weighted_by.
  revert us; induction bs as [|b bs IH]; intros [|u us] H; simpl in *;
    try discriminate; constructor.
  - apply Cnorm2_boltzmann.
  - apply IH; lia.
Qed.

Lemma fixed_phase_weighted (n phase : R) (bs : list R) :
  weighted_by n bs
    (map (fun b => Cdivr (Cmul (RtoC b) (Cexp_i phase)) n) bs).
Proof.
  unfold weighted_by. induction bs as [|b bs IH]; simpl; constructor; auto.
  apply Cnorm2_boltzmann.
Qed.

Lemma weighted_length (n : R) (bs : list R) (cs : list C) :
  weighted_by n bs cs -> length cs = length bs.
Proof. intro H. symmetry. exact (Forall2_length H). Qed.

Lemma weighted_norm2 (n : R) (bs : list R) (cs : list C) :
  weighted_by n bs cs ->
  norm2 cs = Rsum (map (fun b => b * b) bs) * (/ n * / n).
Proof.
  unfold norm2. induction 1 as [|b c bs cs Hc _ IH]; simpl.
  - ring.
  - rewrite Hc, IH. unfold Rdiv. ring.
Qed.

Lemma weighted_nth (n : R) (bs : list R) (cs : list C) (i : nat) :
  weighted_by n bs cs -> (i < length bs)%nat ->
  Cabs (nth i cs Czero) = Rabs (nth i bs 0 / n).
Proof.
  intros H; revert i. induction H as [|b c bs cs Hc _ IH]; intros i Hi;
    simpl in *; [lia|].
  destruct i as [|i].
  - unfold Cabs. rewrite Hc. fold (Rsqr (b / n)). apply sqrt_Rsqr_abs.
  - apply IH; lia.
Qed.

Lemma half_exponent (e t : R) :
  0 < t ->
  exp (- e / (2 * k * t)) * exp (- e / (2 * k * t)) = exp (- e / (k * t)).
Proof.
  intro Ht. rewrite <- exp_plus. f_equal.
  assert (0 < k) by (unfold k; apply Rdiv_lt_0_compat; [lra | apply pow_lt; lra]).
  field. split; apply Rgt_not_eq; lra.
Qed.

Lemma boltzmann_weights_sum (t : R) (es : list R) :
  0 < t ->
  Rsum (map (fun b => b * b) (map (fun e => exp (- e / (2 * k * t))) es))
  = Rsum (map (fun e => exp (- e / (k * t))) es).
Proof.
  intro Ht. induction es as [|e es IH]; simpl; [reflexivity|].
  rewrite half_exponent, IH by assumption. reflexivity.
Qed.

Lemma positive_sum_exp (f : R -> R) (es : list R) :
  es <> [] -> 0 < Rsum (map (fun e => exp (f e)) es).
Proof.
  intro Hne. destruct es as [|e es]; [contradiction|]. simpl.
  assert (Hge : forall l, 0 <= Rsum (map (fun e => exp (f e)) l)).
  { induction l as [|x l IH]; simpl; [lra|].
    pose proof (exp_pos (f x)). lra. }
  pose proof (exp_pos (f e)). specialize (Hge es). lra.
Qed.

Lemma weighted_magnitudes (n : R) (bs : list R) (cs : list C) :
  weighted_by n bs cs -> map Cabs cs = map (fun b => Rabs (b / n)) bs.
Proof.
  induction 1 as [|b c bs cs Hc _ IH]; simpl; [reflexivity|].
  rewrite IH. f_equal. unfold Cabs. rewrite Hc.
  fold (Rsqr (b / n)). apply sqrt_Rsqr_abs.
Qed.

(** What the normalisation does to Boltzmann-weighted amplitudes. *)
Lemma weighted_boltzmann_state (t : R) (es : list R) (cs : list C) :
  0 < t -> es <> [] ->
  weighted_by
    (sqrt (Rsum (map (fun b => b * b)
                     (map (fun e => exp (- e / (2 * k * t))) es))))
    (map (fun e => exp (- e / (2 * k * t))) es) cs ->
  norm cs = 1
  /\ length cs = length es
  /\ (forall i, (i < length es)%nat ->
        Cabs (nth i cs Czero)
        = sqrt (exp (- nth i es 0 / (k * t)))
          / sqrt (Rsum (map (fun e => exp (- e / (k * t))) es)))
  /\ Forall (fun c => 0 <= Cnorm2 c) cs.
Proof.
  intros Ht Hne Hw.
  rewrite boltzmann_weights_sum in Hw by assumption.
  set (total := Rsum (map (fun e => exp (- e / (k * t))) es)) in *.
  assert (Htotal : 0 < total)
    by (apply (positive_sum_exp (fun e => - e / (k * t))); assumption).
  assert (Hroot : 0 < sqrt total) by (apply sqrt_lt_R0; assumption).
  repeat split.
  - unfold norm. rewrite (weighted_norm2 _ _ _ Hw).
    rewrite boltzmann_weights_sum by assumption. fold total.
    replace (total * (/ sqrt total * / sqrt total)) with 1; [apply sqrt_1|].
    rewrite <- (sqrt_sqrt total) at 1 by lra.
    field. apply Rgt_not_eq; lra.
  - rewrite (weighted_length _ _ _ Hw). apply length_map.
  - intros i Hi.
    rewrite (weighted_nth _ _ _ i Hw) by (rewrite length_map; exact Hi).
    rewrite (nth_indep _ 0 (exp (- 0 / (2 * k * t))))
      by (rewrite length_map; exact Hi).
    rewrite (map_nth (fun e => exp (- e / (2 * k * t))) es 0 i).
    rewrite <- half_exponent by assumption.
    rewrite sqrt_square by (left; apply exp_pos).
    apply Rabs_pos_eq. apply Rlt_le. apply Rdiv_lt_0_compat; [apply exp_pos | lra].
  - apply Forall_forall. intros c _. apply Cnorm2_nonneg.
Qed.

Section PipelineFacts.

Context {lib : SurfacePotentialAnalysis}.

Lemma get_hamiltonian_run system config w :
  get_hamiltonian system config w
  = (Ok (compiled_hamiltonian system config), logged BuildHamiltonian w).
Proof. reflexivity. Qed.

(** C10: for every system, shape and resolution, the full Hamiltonian
    built with [bloch_fraction] omitted is the operator built with
    [bloch_fraction] equal to the zero vector. *)
Theorem full_hamiltonian_default_is_gamma_point
    (system : PeriodicSystem) (shape resolution : tuple1 Z) :
  _get_full_hamiltonian system shape resolution None
  = _get_full_hamiltonian system shape resolution (Some [0]).
Proof. reflexivity. Qed.

(** The rescaling factor of [get_interpolated_potential] is 1 at
    resolution 3, so the amplitudes it hands to the conversion routine are
    those of [get_potential]. *)
Lemma rescaling_at_resolution_3 (system : PeriodicSystem) :
  map (fun v =>
         Cscale v (sqrt (IZR 3 / IZR (basis_n
                           (item0 (potential_basis (get_potential system)))))))
      (potential_data (get_potential system))
  = potential_data (get_potential system).
Proof.
  simpl. replace (3 / 3) with 1 by lra. rewrite sqrt_1.
  unfold Cscale, RtoC; simpl.
  repeat (f_equal; try (apply C_eq; simpl; lra)).
Qed.

(** C8: for every PeriodicSystem, [get_interpolated_potential] at
    resolution 3 returns the potential of [get_potential] (the rescaling
    factor [sqrt (resolution / 3)] is 1 there), given that converting a
    potential already held in a fundamental momentum basis into the
    fundamental momentum basis of its own basis leaves it unchanged. *)
Theorem interpolated_potential_round_trip (system : PeriodicSystem)
    (Hsame : forall delta_x n data,
        let p := {| potential_basis :=
                      TupleBasis (FundamentalTransformedPositionBasis delta_x n);
                    potential_data := data |} in
        convert_potential_to_basis
          p (stacked_basis_as_fundamental_momentum_basis (potential_basis p))
        = p) :
  get_interpolated_potential system (Tuple1 3%Z) = get_potential system.
Proof.
  unfold get_interpolated_potential.
  cbv zeta. rewrite rescaling_at_resolution_3.
  exact (Hsame [sqrt 3 * lattice_constant system / 2] 3%Z
               (potential_data (get_potential system))).
Qed.

(** C1: for every compiled Hamiltonian, every initial state the conversion
    into its eigenbasis accepts (with as many amplitudes as there are
    eigenvalues) and every sequence of timestamps, [solve] returns, in the
    eigenbasis, one state per timestamp in the order of [times]; amplitude
    [i] of the state at time [t] is the converted initial amplitude [i]
    times [exp(-i * eigenvalue_i * t / hbar)]. *)
Theorem solve_rotates_each_eigencomponent
    (system : PeriodicSystem) (config : PeriodicSystemConfig)
    (initial_state converted : StateVector) (times : TimeBasis) (w : World)
    (Hconv : convert_state_vector_to_basis
               initial_state
               (fst (diagonal_basis (compiled_hamiltonian system config)))
             = Ok converted)
    (Hdim : length (state_data converted)
            = length (diagonal_data (compiled_hamiltonian system config))) :
  let h := compiled_hamiltonian system config in
  exists states,
    solve_schrodinger_equation system config initial_state times w
    = (Ok states, logged BuildHamiltonian w)
    /\ states_basis states = (times, fst (diagonal_basis h))
    /\ length (states_data states) = length times
    /\ forall j, (j < length times)%nat ->
         length (nth j (states_data states) []) = length (diagonal_data h)
         /\ forall i, (i < length (diagonal_data h))%nat ->
              nth i (nth j (states_data states) []) Czero
              = Cmul (nth i (state_data converted) Czero)
                     (Cexp_i (- (nth i (diagonal_data h) 0 * nth j times 0
                                 / hbar))).
Proof.
  intro h. fold h in Hconv, Hdim.
  unfold solve_schrodinger_equation, bind.
  rewrite get_hamiltonian_run. unfold lift. fold h. rewrite Hconv.
  unfold solve_schrodinger_equation_diagonal.
  rewrite Hdim, Nat.eqb_refl.
  eexists; split; [reflexivity|]. cbn [states_basis states_data].
  split; [reflexivity|]. split; [apply length_map|].
  intros j Hj.
  rewrite (nth_indep _ [] (map2 (fun c e => Cmul c (Cexp_i (- (e * 0 / hbar))))
                                (state_data converted) (diagonal_data h)))
    by (rewrite length_map; exact Hj).
  rewrite (map_nth (fun t => map2 (fun c e => Cmul c (Cexp_i (- (e * t / hbar))))
                                  (state_data converted) (diagonal_data h))
                   times 0 j).
  split.
  - rewrite map2_length; auto.
  - intros i Hi.
    rewrite (nth_map2 _ _ _ i Czero 0 Czero); auto. lia.
Qed.


Lemma get_random_boltzmann_state_run system config temperature w :
  let h := compiled_hamiltonian system config in
  let bs := map (fun e => exp (- e / (2 * k * temperature)))
                (diagonal_data h) in
  get_random_boltzmann_state system config temperature w
  = (Ok {| state_basis := fst (diagonal_basis h);
           state_data :=
             map2 (fun b p =>
                     Cdivr (Cmul (RtoC b) p)
                           (sqrt (Rsum (map (fun b => b * b) bs))))
                  bs
                  (map (fun x => Cexp_i (2 * PI * x))
                       (map (rand w)
                            (seq (cursor w) (length (diagonal_data h))))) |},
     advanced (length (diagonal_data h)) (logged BuildHamiltonian w)).
Proof. reflexivity. Qed.

Lemma get_boltzmann_state_run system config temperature phase w :
  let h := compiled_hamiltonian system config in
  let bs := map (fun e => exp (- e / (2 * k * temperature)))
                (diagonal_data h) in
  get_boltzmann_state system config temperature phase w
  = (Ok {| state_basis := fst (diagonal_basis h);
           state_data :=
             map (fun b =>
                    Cdivr (Cmul (RtoC b) (Cexp_i phase))
                          (sqrt (Rsum (map (fun b => b * b) bs))))
                 bs |},
     logged BuildHamiltonian w).
Proof. reflexivity. Qed.

(** C5, as the code has it: for every system and config whose diagonal
    Hamiltonian has at least one eigenvalue and every temperature [T > 0],
    [get_random_boltzmann_state] (in any run) and [get_boltzmann_state]
    (for any phase) return a state of unit norm, with one amplitude per
    eigenvalue, whose [i]-th magnitude is [sqrt (exp (- E_i / (k T)))]
    divided by the global normalisation
    [sqrt (sum_j exp (- E_j / (k T)))]; all populations are
    non-negative. *)
Theorem boltzmann_states_are_normalised
    (system : PeriodicSystem) (config : PeriodicSystemConfig)
    (temperature phase : R) (w : World)
    (Htemp : 0 < temperature)
    (Hbands : diagonal_data (compiled_hamiltonian system config) <> []) :
  let es := diagonal_data (compiled_hamiltonian system config) in
  exists random fixed,
    fst (get_random_boltzmann_state system config temperature w) = Ok random
    /\ fst (get_boltzmann_state system config temperature phase w) = Ok fixed
    /\ forall s, s = random \/ s = fixed ->
         norm (state_data s) = 1
         /\ length (state_data s) = length es
         /\ (forall i, (i < length es)%nat ->
               Cabs (nth i (state_data s) Czero)
               = sqrt (exp (- nth i es 0 / (k * temperature)))
                 / sqrt (Rsum (map (fun e => exp (- e / (k * temperature)))
                                   es)))
         /\ Forall (fun c => 0 <= Cnorm2 c) (state_data s).
Proof.
  intro es.
  rewrite get_random_boltzmann_state_run, get_boltzmann_state_run.
  cbv zeta. cbn [fst]. fold es.
  eexists; eexists; split; [reflexivity|]; split; [reflexivity|].
  intros s [-> | ->]; cbn [state_data];
    apply weighted_boltzmann_state; try assumption.
  - apply random_phases_weighted. rewrite !length_map, length_seq. reflexivity.
  - apply fixed_phase_weighted.
Qed.

(** C9: for every system, config and temperature, the states of any two
    runs of [get_random_boltzmann_state] have equal component-wise
    magnitudes, and these are the magnitudes of the state
    [get_boltzmann_state] returns for any phase. *)
Theorem boltzmann_magnitudes_ignore_phases
    (system : PeriodicSystem) (config : PeriodicSystemConfig)
    (temperature phase : R) (w1 w2 w3 : World) :
  exists s1 s2 s3,
    fst (get_random_boltzmann_state system config temperature w1) = Ok s1
    /\ fst (get_random_boltzmann_state system config temperature w2) = Ok s2
    /\ fst (get_boltzmann_state system config temperature phase w3) = Ok s3
    /\ map Cabs (state_data s1) = map Cabs (state_data s2)
    /\ map Cabs (state_data s1) = map Cabs (state_data s3).
Proof.
  rewrite !get_random_boltzmann_state_run, get_boltzmann_state_run.
  cbv zeta. cbn [fst].
  do 3 eexists. repeat (split; [reflexivity|]). cbn [state_data].
  set (bs := map (fun e => exp (- e / (2 * k * temperature)))
                 (diagonal_data (compiled_hamiltonian system config))).
  set (n := sqrt (Rsum (map (fun b => b * b) bs))).
  assert (Hrandom : forall w,
    map Cabs
        (map2 (fun b p => Cdivr (Cmul (RtoC b) p) n) bs
              (map (fun x => Cexp_i (2 * PI * x))
                   (map (rand w)
                        (seq (cursor w)
                             (length (diagonal_data
                                        (compiled_hamiltonian system config)))))))
    = map (fun b => Rabs (b / n)) bs).
  { intro w. apply weighted_magnitudes. apply random_phases_weighted.
    unfold bs. rewrite !length_map, length_seq. reflexivity. }
  rewrite !Hrandom.
  rewrite (weighted_magnitudes _ _ _ (fixed_phase_weighted n phase bs)).
  split; reflexivity.
Qed.

(** ** The ensemble average *)

Lemma solve_diagonal_ok (state : StateVector) (times : TimeBasis)
    (h : DiagonalOperator) (states : StateVectorList) :
  solve_schrodinger_equation_diagonal state times h = Ok states ->
  length (state_data state) = length (diagonal_data h)
  /\ states_basis states = (times, fst (diagonal_basis h))
  /\ states_data states
     = map (fun t => map2 (fun c e => Cmul c (Cexp_i (- (e * t / hbar))))
                          (state_data state) (diagonal_data h))
           times.
Proof.
  unfold solve_schrodinger_equation_diagonal.
  destruct (Nat.eqb _ _) eqn:E; [|discriminate].
  intro H; injection H as <-. apply Nat.eqb_eq in E. auto.
Qed.

Lemma inner_products_ok (l0 l1 : StateVectorList) (v : ValueList) :
  calculate_inner_products_elementwise l0 l1 = Ok v ->
  values_basis v = fst (states_basis l0)
  /\ length (values_data v) = length (states_data l0)
  /\ length (states_data l1) = length (states_data l0).
Proof.
  unfold calculate_inner_products_elementwise.
  destruct (Nat.eqb _ _) eqn:E; [|discriminate].
  apply Nat.eqb_eq in E. intro H.
  apply rbind_ok in H. destruct H as [products [Hseq H]].
  injection H as <-. cbn [values_basis values_data].
  apply sequence_length in Hseq.
  rewrite map2_length in Hseq by exact E. auto.
Qed.

Lemma isf_from_hamiltonian_shape (h : DiagonalOperator) (operator : Operator)
    (state : StateVector) (times : TimeBasis) (v : ValueList) :
  get_isf_from_hamiltonian h operator state times = Ok v ->
  values_basis v = times /\ length (values_data v) = length times.
Proof.
  unfold get_isf_from_hamiltonian. intro H.
  apply rbind_ok in H; destruct H as [ci [_ H]].
  apply rbind_ok in H; destruct H as [ev [_ H]].
  apply rbind_ok in H; destruct H as [evs [_ H]].
  apply rbind_ok in H; destruct H as [sc [_ H]].
  apply rbind_ok in H; destruct H as [cs [_ H]].
  apply rbind_ok in H; destruct H as [sev [Hsev H]].
  apply solve_diagonal_ok in Hsev. destruct Hsev as [_ [Hb Hd]].
  apply inner_products_ok in H. destruct H as [Hvb [Hvl _]].
  rewrite Hvb, Hvl, Hb, Hd, length_map. auto.
Qed.

Lemma world_after_draws_trace system config temperature i w :
  let w' := world_after_draws system config temperature i w in
  count_event BuildHamiltonian (trace w')
  = (count_event BuildHamiltonian (trace w) + i)%nat
  /\ count_event BuildOperator (trace w')
     = count_event BuildOperator (trace w)
  /\ cursor w'
     = (cursor w
        + i * length (diagonal_data (compiled_hamiltonian system config)))%nat
  /\ rand w' = rand w.
Proof.
  revert w; induction i as [|i IH]; intro w; cbn zeta.
  - simpl. repeat split; try lia; reflexivity.
  - cbn [world_after_draws]. rewrite get_random_boltzmann_state_run.
    cbv zeta. cbn [snd].
    destruct (IH (advanced
                    (length (diagonal_data (compiled_hamiltonian system config)))
                    (logged BuildHamiltonian w))) as [H1 [H2 [H3 H4]]].
    rewrite H1, H2, H3, H4. cbn [advanced logged trace cursor rand].
    rewrite !count_event_app.
    change (count_event BuildHamiltonian [BuildHamiltonian]) with 1%nat.
    change (count_event BuildOperator [BuildHamiltonian]) with 0%nat.
    simpl. repeat split; try lia; reflexivity.
Qed.

Lemma for_range_samples system config temperature
    (h : DiagonalOperator) (operator : Operator) (times : TimeBasis)
    (m : nat) (isfs : list ValueList) (acc : list C) (w0 : World) :
  length isfs = m ->
  (forall i, (i < m)%nat ->
     exists state,
       fst (get_random_boltzmann_state
              system config temperature
              (world_after_draws system config temperature i w0)) = Ok state
       /\ get_isf_from_hamiltonian h operator state times
          = Ok (nth i isfs no_values)) ->
  for_range m
    (fun isf_data =>
       (state <- get_random_boltzmann_state system config temperature ;;
        isf <- lift (get_isf_from_hamiltonian h operator state times) ;;
        ret (map2 Cadd isf_data (values_data isf)))%run)
    acc w0
  = (Ok (fold_left (fun a v => map2 Cadd a (values_data v)) isfs acc),
     world_after_draws system config temperature m w0).
Proof.
  revert isfs acc w0; induction m as [|m IH]; intros isfs acc w0 Hlen H.
  - destruct isfs; [reflexivity | discriminate].
  - destruct isfs as [|v rest]; [discriminate|].
    destruct (H O ltac:(lia)) as [state [Hstate Hv]].
    cbn [world_after_draws nth] in Hstate, Hv.
    cbn [for_range]. unfold bind at 1. unfold bind at 1.
    destruct (get_random_boltzmann_state system config temperature w0)
      as [r w1] eqn:Hdraw.
    cbn [fst] in Hstate. subst r.
    unfold bind at 1. unfold lift at 1. rewrite Hv. unfold ret at 1.
    cbn [fold_left values_data].
    rewrite (IH rest); [| simpl in Hlen; lia |].
    + cbn [world_after_draws]. rewrite Hdraw. reflexivity.
    + intros i Hi. destruct (H (S i) ltac:(lia)) as [s [Hs Hi']].
      cbn [world_after_draws nth] in Hs, Hi'. rewrite Hdraw in Hs.
      exists s. split; assumption.
Qed.

(** C4, as the code has it: for every system, config, [times], direction,
    temperature and sample count [n >= 1] whose [n] per-sample ISFs
    succeed, [get_average_boltzmann_isf] builds the scattering operator
    once, calls [get_hamiltonian] once itself and once more inside each
    of the [n] draws ([n + 1] builds), draws the [n] random Boltzmann
    states from disjoint stretches of the random numbers, computes the ISF
    of each with [get_isf_from_hamiltonian] on the Hamiltonian and operator
    built first, and returns over [times] the component-wise arithmetic
    mean of the [n] ISF sequences; with [n = 1] the result is the ISF of
    the single sample. *)
Theorem average_boltzmann_isf_is_sample_mean
    (system : PeriodicSystem) (config : PeriodicSystemConfig)
    (times : TimeBasis) (direction : tuple1 Z) (temperature : R) (n : Z)
    (w : World) (isfs : list ValueList)
    (Hn : (0 < n)%Z)
    (Hlen : length isfs = Z.to_nat n)
    (Hisf : forall i, (i < Z.to_nat n)%nat ->
       exists state,
         fst (get_random_boltzmann_state
                system config temperature
                (world_after_draws
                   system config temperature i
                   (logged BuildOperator (logged BuildHamiltonian w))))
         = Ok state
         /\ get_isf_from_hamiltonian
              (compiled_hamiltonian system config)
              (get_periodic_x_operator
                 (fst (diagonal_basis (compiled_hamiltonian system config)))
                 direction)
              state times
            = Ok (nth i isfs no_values)) :
  exists result w',
    get_average_boltzmann_isf system config times direction temperature n w
    = (Ok result, w')
    /\ values_basis result = times
    /\ length (values_data result) = length times
    /\ (forall j, (j < length times)%nat ->
          nth j (values_data result) Czero
          = Cdivr (Csum (map (fun isf => nth j (values_data isf) Czero) isfs))
                  (IZR n))
    /\ count_event BuildHamiltonian (trace w')
       = (count_event BuildHamiltonian (trace w) + 1 + Z.to_nat n)%nat
    /\ count_event BuildOperator (trace w')
       = (count_event BuildOperator (trace w) + 1)%nat
    /\ cursor w'
       = (cursor w
          + Z.to_nat n
            * length (diagonal_data (compiled_hamiltonian system config)))%nat
    /\ (n = 1%Z -> values_data result = values_data (nth 0 isfs no_values)).
Proof.
  set (h := compiled_hamiltonian system config) in *.
  set (operator := get_periodic_x_operator (fst (diagonal_basis h)) direction)
    in *.
  set (w0 := logged BuildOperator (logged BuildHamiltonian w)) in *.
  assert (Hshape : Forall (fun v => length (values_data v) = length times)
                          isfs).
  { apply Forall_forall. intros v Hv.
    destruct (In_nth _ _ no_values Hv) as [i [Hi <-]].
    rewrite Hlen in Hi. destruct (Hisf i Hi) as [state [_ Hok]].
    apply isf_from_hamiltonian_shape in Hok. apply Hok. }
  pose proof (for_range_samples system config temperature h operator times
                (Z.to_nat n) isfs (repeat Czero (times_n times)) w0
                Hlen Hisf) as Hloop.
  destruct (world_after_draws_trace system config temperature (Z.to_nat n) w0)
    as [Hbuilds [Hops [Hcursor _]]].
  fold h in Hcursor.
  set (total := fold_left (fun a v => map2 Cadd a (values_data v)) isfs
                          (repeat Czero (times_n times))) in *.
  assert (Htotal : length total = length times)
    by (apply accumulated_length; [apply repeat_length | exact Hshape]).
  exists {| values_data := map (fun v => Cdivr v (IZR n)) total;
            values_basis := times |},
         (world_after_draws system config temperature (Z.to_nat n) w0).
  split; [|split; [|split; [|split; [|split; [|split; [|split]]]]]].
  - unfold get_average_boltzmann_isf. cbv zeta.
    unfold bind at 1. rewrite get_hamiltonian_run. fold h.
    unfold bind at 1. unfold build_periodic_x_operator at 1.
    unfold bind at 1. unfold record at 1, ret at 1. fold operator. fold w0.
    unfold bind at 1. rewrite Hloop. reflexivity.
  - reflexivity.
  - cbn [values_data]. rewrite length_map. exact Htotal.
  - intros j Hj. cbn [values_data].
    rewrite (nth_indep _ Czero (Cdivr Czero (IZR n)))
      by (rewrite length_map, Htotal; exact Hj).
    rewrite (map_nth (fun v => Cdivr v (IZR n)) total Czero j).
    unfold total.
    rewrite (accumulated_nth (length times))
      by (try apply repeat_length; assumption).
    rewrite nth_repeat_zero, Cadd_0_l. reflexivity.
  - rewrite Hbuilds. unfold w0. cbn [logged trace].
    rewrite !count_event_app.
    change (count_event BuildHamiltonian [BuildHamiltonian]) with 1%nat.
    change (count_event BuildHamiltonian [BuildOperator]) with 0%nat. lia.
  - rewrite Hops. unfold w0. cbn [logged trace].
    rewrite !count_event_app.
    change (count_event BuildOperator [BuildHamiltonian]) with 0%nat.
    change (count_event BuildOperator [BuildOperator]) with 1%nat. lia.
  - rewrite Hcursor. reflexivity.
  - intros ->. cbn [values_data].
    change (Z.to_nat 1) with 1%nat in Hlen.
    destruct isfs as [|v [|v' rest]]; try discriminate Hlen.
    cbn [nth]. unfold total. cbn [fold_left].
    inversion Hshape as [|? ? Hv _]; subst.
    assert (Hzero : forall l : list C,
               map2 Cadd (repeat Czero (length l)) l = l).
    { induction l as [|c l IHl]; simpl; [reflexivity|].
      rewrite IHl, Cadd_0_l. reflexivity. }
    unfold times_n. rewrite <- Hv, Hzero.
    rewrite <- (map_id (values_data v)) at 2.
    apply map_ext. intro c. apply Cdivr_1.
Qed.

(** ** The intermediate scattering function *)

Lemma get_isf_value system config initial_state times direction w :
  fst (get_isf system config initial_state times direction w)
  = get_isf_from_hamiltonian
      (compiled_hamiltonian system config)
      (get_periodic_x_operator (state_basis initial_state) direction)
      initial_state times.
Proof.
  unfold get_isf, get_isf_from_hamiltonian, build_periodic_x_operator,
    solve_schrodinger_equation.
  unfold bind, record, ret, lift. rewrite !get_hamiltonian_run.
  set (h := compiled_hamiltonian system config).
  set (operator := get_periodic_x_operator (state_basis initial_state)
                                           direction).
  cbn [rbind].
  destruct (convert_state_vector_to_basis initial_state
              (fst (diagonal_basis h))) as [ci|e]; [|reflexivity].
  cbn [rbind].
  destruct (solve_schrodinger_equation_diagonal ci times h) as [ev|e];
    [|reflexivity].
  cbn [rbind].
  destruct (apply_operator_to_states operator ev) as [evs|e]; [|reflexivity].
  cbn [rbind].
  destruct (apply_operator_to_state operator initial_state) as [sc|e];
    [|reflexivity].
  cbn [rbind]. rewrite get_hamiltonian_run. fold h.
  destruct (convert_state_vector_to_basis sc (fst (diagonal_basis h)))
    as [cs|e]; [|reflexivity].
  cbn [rbind].
  destruct (solve_schrodinger_equation_diagonal cs times h) as [sev|e];
    reflexivity.
Qed.

Lemma apply_operator_ok (operator : Operator) (state result : StateVector) :
  apply_operator_to_state operator state = Ok result ->
  exists converted,
    convert_state_vector_to_basis state (snd (operator_basis operator))
    = Ok converted
    /\ rows_have (length (state_data converted)) (operator_data operator)
       = true
    /\ result
       = {| state_basis := fst (operator_basis operator);
            state_data :=
              matvec (operator_data operator) (state_data converted) |}.
Proof.
  unfold apply_operator_to_state. intro H.
  apply rbind_ok in H. destruct H as [converted [Hc H]].
  destruct (rows_have _ _) eqn:Hrows; [|discriminate].
  injection H as <-. exists converted. auto.
Qed.

Lemma isf_entry (h : DiagonalOperator) (operator : Operator)
    (initial_state : StateVector) (times : TimeBasis) (isf : ValueList)
    (j : nat) :
  get_isf_from_hamiltonian h operator initial_state times = Ok isf ->
  (j < length times)%nat ->
  let E := fst (diagonal_basis h) in
  let A := operator_data operator in
  let rotated cs :=
    map2 (fun c e => Cmul c (Cexp_i (- (e * nth j times 0 / hbar))))
         cs (diagonal_data h) in
  exists ci y cs x z,
    convert_state_vector_to_basis initial_state E = Ok ci
    /\ length (state_data ci) = length (diagonal_data h)
    /\ convert_state_vector_to_basis
         initial_state (snd (operator_basis operator)) = Ok y
    /\ rows_have (length (state_data y)) A = true
    /\ convert_state_vector_to_basis
         {| state_basis := fst (operator_basis operator);
            state_data := matvec A (state_data y) |} E = Ok cs
    /\ length (state_data cs) = length (diagonal_data h)
    /\ convert_state_vector_to_basis
         {| state_basis := E; state_data := rotated (state_data ci) |}
         (snd (operator_basis operator)) = Ok x
    /\ rows_have (length (state_data x)) A = true
    /\ convert_state_vector_to_basis
         {| state_basis := fst (operator_basis operator);
            state_data := matvec A (state_data x) |} E = Ok z
    /\ nth j (values_data isf) Czero
       = inner (rotated (state_data cs)) (state_data z).
Proof.
  intros H Hj E A rotated.
  unfold get_isf_from_hamiltonian in H.
  apply rbind_ok in H; destruct H as [ci [Hci H]].
  apply rbind_ok in H; destruct H as [ev [Hev H]].
  apply rbind_ok in H; destruct H as [evs [Hevs H]].
  apply rbind_ok in H; destruct H as [sc [Hsc H]].
  apply rbind_ok in H; destruct H as [cs [Hcs H]].
  apply rbind_ok in H; destruct H as [sev [Hsev H]].
  apply solve_diagonal_ok in Hev. destruct Hev as [Lci [Bev Dev]].
  apply solve_diagonal_ok in Hsev. destruct Hsev as [Lcs [Bsev Dsev]].
  apply apply_operator_ok in Hsc. destruct Hsc as [y [Hy [Ry ->]]].
  unfold apply_operator_to_states in Hevs.
  apply rbind_ok in Hevs. destruct Hevs as [slices [Hslices Hevs]].
  injection Hevs as <-.
  unfold calculate_inner_products_elementwise in H.
  cbn [states_data states_basis fst snd] in H.
  destruct (Nat.eqb _ _) eqn:Hlen in H; [|discriminate].
  apply Nat.eqb_eq in Hlen.
  apply rbind_ok in H. destruct H as [products [Hproducts H]].
  injection H as <-. cbn [values_data].
  assert (Lsev : length (states_data sev) = length times)
    by (rewrite Dsev; apply length_map).
  assert (Lev : length (states_data ev) = length times)
    by (rewrite Dev; apply length_map).
  (* the j-th slice of the scattered evolution *)
  pose proof (sequence_nth _ _ j (Raise BasisMismatch) [] Hslices) as Hslice.
  rewrite length_map, Lev in Hslice. specialize (Hslice Hj).
  rewrite (nth_indep _ _
             ((fun data =>
                 (s <- apply_operator_to_state
                         operator
                         {| state_basis := snd (states_basis ev);
                            state_data := data |} ;;
                  Ok (state_data s))%result) []))
    in Hslice by (rewrite length_map, Lev; exact Hj).
  rewrite (map_nth (fun data =>
                      (s <- apply_operator_to_state
                              operator
                              {| state_basis := snd (states_basis ev);
                                 state_data := data |} ;;
                       Ok (state_data s))%result)) in Hslice.
  apply rbind_ok in Hslice. destruct Hslice as [s [Hs Hs']].
  injection Hs' as Hs'.
  apply apply_operator_ok in Hs. destruct Hs as [x [Hx [Rx ->]]].
  cbn [state_data] in Hs'.
  (* the j-th inner product *)
  pose proof (sequence_nth _ _ j (Raise BasisMismatch) Czero Hproducts)
    as Hproduct.
  rewrite map2_length in Hproduct by exact Hlen.
  rewrite Lsev in Hproduct. specialize (Hproduct Hj).
  rewrite (nth_map2 _ _ _ j [] [] (Raise BasisMismatch)) in Hproduct
    by (first [exact Hlen | rewrite Lsev; exact Hj]).
  apply rbind_ok in Hproduct. destruct Hproduct as [z [Hz Hp]].
  destruct (Nat.eqb _ _) in Hp; [|discriminate].
  injection Hp as Hp.
  (* the two evolutions at time j *)
  assert (Dj : forall (c0 : StateVector) l,
             l = map (fun t =>
                        map2 (fun c e => Cmul c (Cexp_i (- (e * t / hbar))))
                             (state_data c0) (diagonal_data h))
                     times ->
             nth j l [] = rotated (state_data c0)).
  { intros c0 l ->.
    rewrite (nth_indep _ []
               ((fun t =>
                   map2 (fun c e => Cmul c (Cexp_i (- (e * t / hbar))))
                        (state_data c0) (diagonal_data h)) 0))
      by (rewrite length_map; exact Hj).
    apply (map_nth (fun t =>
                      map2 (fun c e => Cmul c (Cexp_i (- (e * t / hbar))))
                           (state_data c0) (diagonal_data h))). }
  rewrite (Dj ci _ Dev) in Hx. rewrite (Dj cs _ Dsev) in Hp.
  rewrite Bev in Hx. rewrite Bsev in Hz. cbn [snd fst] in Hx, Hz.
  rewrite <- Hs' in Hz.
  exists ci, y, cs, x, z.
  repeat (split; [assumption|]). symmetry. exact Hp.
Qed.


End PipelineFacts.

(** ** The theorems at work on two bands *)

Lemma interpolated_potential_round_trip_witness :
  get_interpolated_potential (lib := band_library)
    HYDROGEN_NICKEL_SYSTEM (Tuple1 3%Z)
  = get_potential HYDROGEN_NICKEL_SYSTEM.
Proof.
  apply (interpolated_potential_round_trip (lib := band_library)).
  intros delta_x n data. reflexivity.
Defined.

Lemma solve_rotates_each_eigencomponent_witness :
  exists states,
    fst (solve_schrodinger_equation (lib := band_library)
           HYDROGEN_NICKEL_SYSTEM two_bands ground_state [0; 1] still_world)
    = Ok states
    /\ length (states_data states) = 2%nat
    /\ nth 1 (nth 1 (states_data states) []) Czero
       = Cmul Czero (Cexp_i (- (INR 1 * 1 / hbar))).
Proof.
  destruct (solve_rotates_each_eigencomponent (lib := band_library)
              HYDROGEN_NICKEL_SYSTEM two_bands ground_state
              {| state_basis := band_basis 2; state_data := [Cone; Czero] |}
              [0; 1] still_world eq_refl eq_refl)
    as [states [Hrun [_ [Hlen Hamp]]]].
  exists states. rewrite Hrun. split; [reflexivity|]. split; [exact Hlen|].
  destruct (Hamp 1%nat) as [_ H]; [simpl; lia|].
  exact (H 1%nat (Nat.lt_succ_diag_r 1)).
Defined.


Lemma boltzmann_states_are_normalised_witness :
  0 < 300
  /\ exists random,
       fst (get_random_boltzmann_state (lib := band_library)
              HYDROGEN_NICKEL_SYSTEM two_bands 300 still_world) = Ok random
       /\ norm (state_data random) = 1.
Proof.
  assert (Htemp : 0 < 300) by lra.
  split; [exact Htemp|].
  destruct (boltzmann_states_are_normalised (lib := band_library)
              HYDROGEN_NICKEL_SYSTEM two_bands 300 0 still_world Htemp)
    as [random [fixed [Hrandom [_ Hboth]]]].
  - simpl. discriminate.
  - exists random. split; [exact Hrandom|].
    apply (Hboth random). left; reflexivity.
Defined.

(** C5, counterexample: a config that keeps no band (nothing rejects it)
    has a Hamiltonian without eigenvalues; the state drawn for it at 300 K
    has no amplitudes and norm 0, not 1. *)
Lemma boltzmann_state_without_bands :
  0 < 300
  /\ exists random,
       fst (get_random_boltzmann_state (lib := band_library)
              HYDROGEN_NICKEL_SYSTEM no_bands 300 still_world) = Ok random
       /\ state_data random = []
       /\ norm (state_data random) <> 1.
Proof.
  split; [lra|].
  eexists. split; [reflexivity|]. split; [reflexivity|].
  unfold norm, norm2. simpl. rewrite sqrt_0. lra.
Qed.

(** The kick by one band is unitary on two bands. *)
Lemma cyclic_shift_2_unitary : unitary (cyclic_shift 2 1).
Proof.
  split; [reflexivity|].
  intros [|a [|b [|c x]]] Hx; try discriminate Hx.
  unfold matvec, dagger, dot; simpl.
  f_equal; [|f_equal]; apply C_eq; simpl; ring.
Qed.

Lemma band_library_keeps_amplitudes (s s' : StateVector) (b : Basis) :
  convert_state_vector_to_basis (SurfacePotentialAnalysis := band_library)
    s b = Ok s' ->
  state_data s' = state_data s.
Proof. simpl. intro H. injection H as <-. reflexivity. Qed.



Lemma average_boltzmann_isf_is_sample_mean_witness :
  (0 < 1)%Z
  /\ exists result w',
       get_average_boltzmann_isf (lib := band_library)
         HYDROGEN_NICKEL_SYSTEM two_bands [0] (Tuple1 1%Z) 300 1 still_world
       = (Ok result, w')
       /\ length (values_data result) = 1%nat
       /\ count_event BuildHamiltonian (trace w') = 2%nat
       /\ count_event BuildOperator (trace w') = 1%nat
       /\ cursor w' = 2%nat.
Proof.
  split; [reflexivity|].
  set (w0 := logged BuildOperator (logged BuildHamiltonian still_world)).
  set (h := compiled_hamiltonian (lib := band_library)
              HYDROGEN_NICKEL_SYSTEM two_bands).
  set (operator := get_periodic_x_operator
                     (SurfacePotentialAnalysis := band_library)
                     (fst (diagonal_basis h)) (Tuple1 1%Z)).
  set (state := value_of ground_state
                  (fst (get_random_boltzmann_state (lib := band_library)
                          HYDROGEN_NICKEL_SYSTEM two_bands 300 w0))).
  set (v := value_of no_values
              (get_isf_from_hamiltonian (lib := band_library)
                 h operator state [0])).
  destruct (average_boltzmann_isf_is_sample_mean (lib := band_library)
              HYDROGEN_NICKEL_SYSTEM two_bands [0] (Tuple1 1%Z) 300 1
              still_world [v] eq_refl eq_refl)
    as [result [w' [Hrun [_ [Hlen [_ [Hbuilds [Hops [Hcursor _]]]]]]]]].
  - intros i Hi. change (Z.to_nat 1) with 1%nat in Hi.
    assert (i = O) by lia. subst i.
    exists state. split; vm_compute; reflexivity.
  - exists result, w'. repeat split; assumption.
Defined.

(** C4, counterexample: averaging over one sample from an empty trace
    succeeds and leaves two calls of [get_hamiltonian] in the trace, the
    averager's own and the one inside the draw, not one. *)
Lemma average_rebuilds_hamiltonian :
  let run :=
    get_average_boltzmann_isf (lib := band_library)
      HYDROGEN_NICKEL_SYSTEM two_bands [0] (Tuple1 1%Z) 300 1 still_world in
  count_event BuildHamiltonian (trace still_world) = 0%nat
  /\ (exists result, fst run = Ok result)
  /\ count_event BuildHamiltonian (trace (snd run)) = 2%nat
  /\ count_event BuildHamiltonian (trace (snd run)) <> 1%nat.
Proof.
  cbv zeta. split; [reflexivity|]. split.
  - eexists. vm_compute. reflexivity.
  - split; [vm_compute; reflexivity | vm_compute; discriminate].
Qed.



(** * Further behaviour of the pipeline *)

Section PipelineBehaviour.

Context {lib : SurfacePotentialAnalysis}.

(** ** How the two ISF routines relate *)

(** X1: in every run, succeeding or not, [get_isf] returns what
    [get_isf_from_hamiltonian] returns for the Hamiltonian of
    [get_hamiltonian] and the operator built in the state's basis. *)
Theorem get_isf_agrees_with_hamiltonian_reuse
    (system : PeriodicSystem) (config : PeriodicSystemConfig)
    (initial_state : StateVector) (times : TimeBasis) (direction : tuple1 Z)
    (w w' : World) :
  exists h,
    fst (get_hamiltonian system config w') = Ok h
    /\ fst (get_isf system config initial_state times direction w)
       = get_isf_from_hamiltonian
           h (get_periodic_x_operator (state_basis initial_state) direction)
           initial_state times.
Proof.
  exists (compiled_hamiltonian system config).
  split; [reflexivity | apply get_isf_value].
Qed.

Lemma get_isf_world system config initial_state times direction w isf :
  fst (get_isf system config initial_state times direction w) = Ok isf ->
  snd (get_isf system config initial_state times direction w)
  = logged BuildHamiltonian
      (logged BuildHamiltonian (logged BuildOperator w)).
Proof.
  unfold get_isf, build_periodic_x_operator, solve_schrodinger_equation.
  unfold bind, record, ret, lift. rewrite !get_hamiltonian_run.
  set (h := compiled_hamiltonian system config).
  set (operator := get_periodic_x_operator (state_basis initial_state)
                                           direction).
  destruct (convert_state_vector_to_basis initial_state
              (fst (diagonal_basis h))) as [ci|e]; [|discriminate].
  destruct (solve_schrodinger_equation_diagonal ci times h) as [ev|e];
    [|discriminate].
  destruct (apply_operator_to_states operator ev) as [evs|e]; [|discriminate].
  destruct (apply_operator_to_state operator initial_state) as [sc|e];
    [|discriminate].
  rewrite get_hamiltonian_run. fold h.
  destruct (convert_state_vector_to_basis sc (fst (diagonal_basis h)))
    as [cs|e]; [|discriminate].
  destruct (solve_schrodinger_equation_diagonal cs times h) as [sev|e];
    [|discriminate].
  intros _. reflexivity.
Qed.

(** X2: a call of [get_isf] that returns has built the scattering operator
    once and then the Hamiltonian twice (once per evolution), has used no
    random number, and returns over [times] one value per timestamp. *)
Theorem get_isf_builds_hamiltonian_twice
    (system : PeriodicSystem) (config : PeriodicSystemConfig)
    (initial_state : StateVector) (times : TimeBasis) (direction : tuple1 Z)
    (w : World) (isf : ValueList)
    (Hrun : fst (get_isf system config initial_state times direction w)
            = Ok isf) :
  let w' := snd (get_isf system config initial_state times direction w) in
  trace w' = trace w ++ [BuildOperator; BuildHamiltonian; BuildHamiltonian]
  /\ count_event BuildHamiltonian (trace w')
     = (count_event BuildHamiltonian (trace w) + 2)%nat
  /\ count_event BuildOperator (trace w')
     = (count_event BuildOperator (trace w) + 1)%nat
  /\ cursor w' = cursor w
  /\ values_basis isf = times
  /\ length (values_data isf) = length times.
Proof.
  cbv zeta. rewrite (get_isf_world _ _ _ _ _ _ _ Hrun).
  cbn [logged trace cursor]. rewrite <- !app_assoc. cbn [app].
  rewrite !count_event_app.
  change (count_event BuildHamiltonian
            [BuildOperator; BuildHamiltonian; BuildHamiltonian]) with 2%nat.
  change (count_event BuildOperator
            [BuildOperator; BuildHamiltonian; BuildHamiltonian]) with 1%nat.
  rewrite get_isf_value in Hrun.
  apply isf_from_hamiltonian_shape in Hrun. destruct Hrun as [Hb Hl].
  repeat split; auto.
Qed.

(** X3: when the initial state cannot be converted into the eigenbasis,
    [solve_schrodinger_equation] raises the converter's exception after
    building the Hamiltonian once, and [get_isf] raises the same exception
    after building the operator and the Hamiltonian once each: no partial
    result is returned. *)
Theorem conversion_failure_is_raised
    (system : PeriodicSystem) (config : PeriodicSystemConfig)
    (initial_state : StateVector) (times : TimeBasis) (direction : tuple1 Z)
    (w : World) (e : Exception)
    (Hconv : convert_state_vector_to_basis
               initial_state
               (fst (diagonal_basis (compiled_hamiltonian system config)))
             = Raise e) :
  solve_schrodinger_equation system config initial_state times w
  = (Raise e, logged BuildHamiltonian w)
  /\ get_isf system config initial_state times direction w
     = (Raise e, logged BuildHamiltonian (logged BuildOperator w))
  /\ get_isf_from_hamiltonian
       (compiled_hamiltonian system config)
       (get_periodic_x_operator (state_basis initial_state) direction)
       initial_state times
     = Raise e.
Proof.
  assert (Hsolve : forall w0,
             solve_schrodinger_equation system config initial_state times w0
             = (Raise e, logged BuildHamiltonian w0)).
  { intro w0. unfold solve_schrodinger_equation, bind.
    rewrite get_hamiltonian_run. unfold lift. rewrite Hconv. reflexivity. }
  split; [apply Hsolve|]. split.
  - unfold get_isf, build_periodic_x_operator.
    unfold bind at 1. unfold bind at 1. unfold record, ret.
    unfold bind at 1. rewrite Hsolve. reflexivity.
  - unfold get_isf_from_hamiltonian. rewrite Hconv. reflexivity.
Qed.

End PipelineBehaviour.

Lemma get_isf_builds_hamiltonian_twice_witness :
  let run :=
    get_isf (lib := band_library)
      HYDROGEN_NICKEL_SYSTEM two_bands ground_state [0; 1] (Tuple1 1%Z)
      still_world in
  fst run = Ok (value_of no_values (fst run))
  /\ trace (snd run) = [BuildOperator; BuildHamiltonian; BuildHamiltonian]
  /\ length (values_data (value_of no_values (fst run))) = 2%nat.
Proof.
  cbv zeta.
  assert (Hrun :
    fst (get_isf (lib := band_library)
           HYDROGEN_NICKEL_SYSTEM two_bands ground_state [0; 1] (Tuple1 1%Z)
           still_world)
    = Ok (value_of no_values
            (fst (get_isf (lib := band_library)
                    HYDROGEN_NICKEL_SYSTEM two_bands ground_state [0; 1]
                    (Tuple1 1%Z) still_world))))
    by (vm_compute; reflexivity).
  destruct (get_isf_builds_hamiltonian_twice (lib := band_library)
              HYDROGEN_NICKEL_SYSTEM two_bands ground_state [0; 1]
              (Tuple1 1%Z) still_world _ Hrun)
    as [Htrace [_ [_ [_ [_ Hlen]]]]].
  split; [exact Hrun|]. split; [exact Htrace | exact Hlen].
Defined.

Lemma conversion_failure_is_raised_witness :
  convert_state_vector_to_basis (SurfacePotentialAnalysis := refusing_library)
    ground_state
    (fst (diagonal_basis
            (compiled_hamiltonian (lib := refusing_library)
               HYDROGEN_NICKEL_SYSTEM two_bands)))
  = Raise BasisMismatch
  /\ get_isf (lib := refusing_library)
       HYDROGEN_NICKEL_SYSTEM two_bands ground_state [0; 1] (Tuple1 1%Z)
       still_world
     = (Raise BasisMismatch,
        logged BuildHamiltonian (logged BuildOperator still_world)).
Proof.
  split; [reflexivity|].
  apply (conversion_failure_is_raised (lib := refusing_library)
           HYDROGEN_NICKEL_SYSTEM two_bands ground_state [0; 1]
           (Tuple1 1%Z) still_world BasisMismatch eq_refl).
Defined.

(** ** Thermal states *)

Lemma map_seq_agree (f g : nat -> R) (d c1 c2 : nat) :
  (forall i, (i < d)%nat -> f (c1 + i)%nat = g (c2 + i)%nat) ->
  map f (seq c1 d) = map g (seq c2 d).
Proof.
  revert c1 c2; induction d as [|d IH]; intros c1 c2 H; simpl; [reflexivity|].
  f_equal.
  - specialize (H O (Nat.lt_0_succ d)). rewrite !Nat.add_0_r in H. exact H.
  - apply IH. intros i Hi.
    specialize (H (S i) ltac:(lia)).
    rewrite !Nat.add_succ_r in H. exact H.
Qed.

Lemma map_seq_constant (f : nat -> R) (u : R) (d c : nat) :
  (forall i, (i < d)%nat -> f (c + i)%nat = u) ->
  map f (seq c d) = repeat u d.
Proof.
  revert c; induction d as [|d IH]; intros c H; simpl; [reflexivity|].
  f_equal.
  - specialize (H O (Nat.lt_0_succ d)). rewrite Nat.add_0_r in H. exact H.
  - apply IH. intros i Hi.
    specialize (H (S i) ltac:(lia)). rewrite Nat.add_succ_r in H. exact H.
Qed.

Lemma map2_constant_right {A B D} (f : A -> B -> D) (l : list A) (b : B) :
  map2 f l (repeat b (length l)) = map (fun a => f a b) l.
Proof.
  induction l as [|a l IH]; simpl; [reflexivity|]. rewrite IH. reflexivity.
Qed.

Lemma exp_le (x y : R) : x <= y -> exp x <= exp y.
Proof.
  intros [Hlt | ->]; [left; apply exp_increasing; exact Hlt | apply Rle_refl].
Qed.

Lemma k_positive : 0 < k.
Proof. unfold k. apply Rdiv_lt_0_compat; [lra | apply pow_lt; lra]. Qed.

Lemma boltzmann_weight_decreasing (t e1 e2 : R) :
  0 < t -> e1 <= e2 ->
  exp (- e2 / (2 * k * t)) <= exp (- e1 / (2 * k * t)).
Proof.
  intros Ht He. apply exp_le. pose proof k_positive as Hk.
  assert (Hpos : 0 < / (2 * k * t)) by (apply Rinv_0_lt_compat; nra).
  unfold Rdiv. nra.
Qed.

Lemma nth_boltzmann_weight (t : R) (es : list R) (i : nat) :
  (i < length es)%nat ->
  nth i (map (fun e => exp (- e / (2 * k * t))) es) 0
  = exp (- nth i es 0 / (2 * k * t)).
Proof.
  intro Hi.
  rewrite (nth_indep _ 0 ((fun e => exp (- e / (2 * k * t))) 0))
    by (rewrite length_map; exact Hi).
  apply (map_nth (fun e => exp (- e / (2 * k * t)))).
Qed.

Lemma weighted_order (n : R) (bs : list R) (cs : list C) (i j : nat) :
  weighted_by n bs cs -> (i < length bs)%nat -> (j < length bs)%nat ->
  0 <= nth j bs 0 <= nth i bs 0 ->
  Cabs (nth j cs Czero) <= Cabs (nth i cs Czero).
Proof.
  intros Hw Hi Hj [H0 Hle].
  rewrite (weighted_nth _ _ _ i Hw Hi), (weighted_nth _ _ _ j Hw Hj).
  unfold Rdiv. rewrite !Rabs_mult.
  rewrite (Rabs_pos_eq (nth j bs 0)) by exact H0.
  rewrite (Rabs_pos_eq (nth i bs 0)) by lra.
  apply Rmult_le_compat_r; [apply Rabs_pos | exact Hle].
Qed.

Section ThermalBehaviour.

Context {lib : SurfacePotentialAnalysis}.

(** X4: the state [get_random_boltzmann_state] returns depends on the run
    only through the random numbers at its cursor, one per eigenvalue: runs
    that agree on these return the same state; the call consumes exactly
    these numbers and builds the Hamiltonian once. *)
Theorem random_state_depends_on_its_draws_only
    (system : PeriodicSystem) (config : PeriodicSystemConfig)
    (temperature : R) (w1 w2 : World)
    (Hsame : forall i,
        (i < length (diagonal_data (compiled_hamiltonian system config)))%nat ->
        rand w1 (cursor w1 + i)%nat = rand w2 (cursor w2 + i)%nat) :
  let d := length (diagonal_data (compiled_hamiltonian system config)) in
  let run1 := get_random_boltzmann_state system config temperature w1 in
  let run2 := get_random_boltzmann_state system config temperature w2 in
  fst run1 = fst run2
  /\ cursor (snd run1) = (cursor w1 + d)%nat
  /\ rand (snd run1) = rand w1
  /\ trace (snd run1) = trace w1 ++ [BuildHamiltonian].
Proof.
  cbv zeta. rewrite !get_random_boltzmann_state_run. cbv zeta.
  cbn [fst snd advanced logged cursor rand trace].
  rewrite (map_seq_agree (rand w1) (rand w2) _ _ _ Hsame).
  repeat split; reflexivity.
Qed.

(** X5: when all the random numbers a draw consumes equal [u], the random
    Boltzmann state is the fixed-phase state of phase [2 pi u]. *)
Theorem constant_draws_give_the_fixed_phase_state
    (system : PeriodicSystem) (config : PeriodicSystemConfig)
    (temperature u : R) (w w' : World)
    (Hconst : forall i,
        (i < length (diagonal_data (compiled_hamiltonian system config)))%nat ->
        rand w (cursor w + i)%nat = u) :
  fst (get_random_boltzmann_state system config temperature w)
  = fst (get_boltzmann_state system config temperature (2 * PI * u) w').
Proof.
  rewrite get_random_boltzmann_state_run, get_boltzmann_state_run.
  cbv zeta. cbn [fst].
  rewrite (map_seq_constant (rand w) u _ _ Hconst).
  rewrite map_repeat.
  rewrite <- (length_map (fun e => exp (- e / (2 * k * temperature)))
                         (diagonal_data (compiled_hamiltonian system config))).
  rewrite map2_constant_right. reflexivity.
Qed.

(** X6: at a temperature other than 0, every amplitude of the state
    [get_boltzmann_state] returns is a non-negative real multiple of
    [exp(i * phase)]: the components share the one phase given, and the
    state lives in the eigenbasis with one amplitude per eigenvalue. *)
Theorem fixed_phase_state_shares_one_phase
    (system : PeriodicSystem) (config : PeriodicSystemConfig)
    (temperature phase : R) (w : World)
    (Htemp : temperature <> 0) :
  exists state moduli,
    fst (get_boltzmann_state system config temperature phase w) = Ok state
    /\ state_basis state
       = fst (diagonal_basis (compiled_hamiltonian system config))
    /\ length moduli
       = length (diagonal_data (compiled_hamiltonian system config))
    /\ Forall (fun r => 0 <= r) moduli
    /\ state_data state = map (fun r => Cscale (Cexp_i phase) r) moduli.
Proof.
  rewrite get_boltzmann_state_run. cbv zeta. cbn [fst].
  set (es := diagonal_data (compiled_hamiltonian system config)).
  set (bs := map (fun e => exp (- e / (2 * k * temperature))) es).
  set (n := sqrt (Rsum (map (fun b => b * b) bs))).
  eexists. exists (map (fun b => b / n) bs).
  split; [reflexivity|]. cbn [state_basis state_data].
  split; [reflexivity|]. split; [unfold bs; rewrite !length_map; reflexivity|].
  assert (Hinv : 0 <= / n).
  { destruct (Req_dec n 0) as [-> | Hn]; [rewrite Rinv_0; apply Rle_refl|].
    left. apply Rinv_0_lt_compat.
    pose proof (sqrt_pos (Rsum (map (fun b => b * b) bs))). fold n in H. lra. }
  split.
  - apply Forall_forall. intros r Hr. apply in_map_iff in Hr.
    destruct Hr as [b [<- Hb]]. unfold bs in Hb. apply in_map_iff in Hb.
    destruct Hb as [e [<- _]]. pose proof (exp_pos (- e / (2 * k * temperature))).
    unfold Rdiv at 1. nra.
  - rewrite map_map. apply map_ext. intro b.
    apply C_eq; unfold Cdivr, Cmul, RtoC, Cscale, Cexp_i, Rdiv; simpl; ring.
Qed.

(** X7: at a positive temperature an eigencomponent of higher energy never
    has the larger magnitude, in the random state of any run and in the
    fixed-phase state of any phase. *)
Theorem populations_decrease_with_energy
    (system : PeriodicSystem) (config : PeriodicSystemConfig)
    (temperature phase : R) (w : World) (i j : nat)
    (Htemp : 0 < temperature)
    (Hi : (i < length (diagonal_data (compiled_hamiltonian system config)))%nat)
    (Hj : (j < length (diagonal_data (compiled_hamiltonian system config)))%nat)
    (Henergy : nth i (diagonal_data (compiled_hamiltonian system config)) 0
               <= nth j (diagonal_data (compiled_hamiltonian system config)) 0) :
  exists random fixed,
    fst (get_random_boltzmann_state system config temperature w) = Ok random
    /\ fst (get_boltzmann_state system config temperature phase w) = Ok fixed
    /\ Cabs (nth j (state_data random) Czero)
       <= Cabs (nth i (state_data random) Czero)
    /\ Cabs (nth j (state_data fixed) Czero)
       <= Cabs (nth i (state_data fixed) Czero).
Proof.
  rewrite get_random_boltzmann_state_run, get_boltzmann_state_run.
  cbv zeta. cbn [fst].
  set (es := diagonal_data (compiled_hamiltonian system config)) in *.
  set (bs := map (fun e => exp (- e / (2 * k * temperature))) es).
  assert (Hbs : 0 <= nth j bs 0 <= nth i bs 0).
  { unfold bs. rewrite !nth_boltzmann_weight by assumption.
    split; [left; apply exp_pos | apply boltzmann_weight_decreasing; assumption]. }
  assert (Li : (i < length bs)%nat) by (unfold bs; rewrite length_map; exact Hi).
  assert (Lj : (j < length bs)%nat) by (unfold bs; rewrite length_map; exact Hj).
  do 2 eexists. split; [reflexivity|]. split; [reflexivity|].
  cbn [state_data]. split.
  - eapply weighted_order with (bs := bs);
      [apply random_phases_weighted | exact Li | exact Lj | exact Hbs].
    unfold bs. rewrite !length_map, length_seq. reflexivity.
  - eapply weighted_order with (bs := bs);
      [apply fixed_phase_weighted | exact Li | exact Lj | exact Hbs].
Qed.

End ThermalBehaviour.

Lemma random_state_depends_on_its_draws_only_witness :
  let later :=
    {| rand := fun _ => 0; cursor := 5; trace := [BuildOperator] |} in
  fst (get_random_boltzmann_state (lib := band_library)
         HYDROGEN_NICKEL_SYSTEM two_bands 300 still_world)
  = fst (get_random_boltzmann_state (lib := band_library)
           HYDROGEN_NICKEL_SYSTEM two_bands 300 later)
  /\ cursor (snd (get_random_boltzmann_state (lib := band_library)
                    HYDROGEN_NICKEL_SYSTEM two_bands 300 still_world))
     = 2%nat.
Proof.
  intro later.
  destruct (random_state_depends_on_its_draws_only (lib := band_library)
              HYDROGEN_NICKEL_SYSTEM two_bands 300 still_world later
              (fun i _ => eq_refl))
    as [Hstate [Hcursor _]].
  split; [exact Hstate | exact Hcursor].
Defined.

Lemma constant_draws_give_the_fixed_phase_state_witness :
  fst (get_random_boltzmann_state (lib := band_library)
         HYDROGEN_NICKEL_SYSTEM two_bands 300 still_world)
  = fst (get_boltzmann_state (lib := band_library)
           HYDROGEN_NICKEL_SYSTEM two_bands 300 (2 * PI * 0) still_world).
Proof.
  exact (constant_draws_give_the_fixed_phase_state (lib := band_library)
           HYDROGEN_NICKEL_SYSTEM two_bands 300 0 still_world still_world
           (fun i _ => eq_refl)).
Defined.

Lemma populations_decrease_with_energy_witness :
  0 < 300
  /\ exists random,
       fst (get_random_boltzmann_state (lib := band_library)
              HYDROGEN_NICKEL_SYSTEM two_bands 300 still_world) = Ok random
       /\ Cabs (nth 1 (state_data random) Czero)
          <= Cabs (nth 0 (state_data random) Czero).
Proof.
  assert (Htemp : 0 < 300) by lra.
  split; [exact Htemp|].
  destruct (populations_decrease_with_energy (lib := band_library)
              HYDROGEN_NICKEL_SYSTEM two_bands 300 0 still_world 0 1 Htemp)
    as [random [fixed [Hrandom [_ [Hle _]]]]].
  - simpl. lia.
  - simpl. lia.
  - simpl. lra.
  - exists random. split; [exact Hrandom | exact Hle].
Defined.

(** ** Bounds and failures of the ensemble average *)

Lemma Cabs_triangle (a b : C) : Cabs (Cadd a b) <= Cabs a + Cabs b.
Proof.
  unfold Cabs.
  pose proof (Cnorm2_nonneg a) as Ha. pose proof (Cnorm2_nonneg b) as Hb.
  pose proof (sqrt_pos (Cnorm2 a)) as Pa. pose proof (sqrt_pos (Cnorm2 b)) as Pb.
  pose proof (sqrt_sqrt _ Ha) as Sa. pose proof (sqrt_sqrt _ Hb) as Sb.
  set (p := sqrt (Cnorm2 a)) in *. set (q := sqrt (Cnorm2 b)) in *.
  rewrite <- (sqrt_square (p + q)) by lra.
  apply sqrt_le_1_alt.
  unfold Cnorm2 in *. unfold Cadd; cbn [fst snd].
  assert (Hcross : fst a * fst b + snd a * snd b <= p * q).
  { destruct (Rle_lt_dec (fst a * fst b + snd a * snd b) (p * q))
      as [Hle | Hgt]; [exact Hle | exfalso].
    assert (0 <= p * q) by nra.
    assert ((p * q) * (p * q)
            < (fst a * fst b + snd a * snd b)
              * (fst a * fst b + snd a * snd b)) by nra.
    assert ((fst a * fst b + snd a * snd b)
            * (fst a * fst b + snd a * snd b)
            <= (p * p) * (q * q)).
    { rewrite Sa, Sb.
      pose proof (Rle_0_sqr (fst a * snd b - snd a * fst b)) as Hs.
      unfold Rsqr in Hs. nra. }
    nra. }
  nra.
Qed.

Lemma Cabs_Cdivr (c : C) (r : R) : 0 < r -> Cabs (Cdivr c r) = Cabs c / r.
Proof.
  intro Hr. unfold Cabs, Cdivr, Cnorm2; cbn [fst snd].
  replace (fst c / r * (fst c / r) + snd c / r * (snd c / r))
    with ((fst c * fst c + snd c * snd c) * (/ r * / r))
    by (unfold Rdiv; ring).
  rewrite sqrt_mult_alt by nra.
  rewrite sqrt_square by (left; apply Rinv_0_lt_compat; exact Hr).
  reflexivity.
Qed.

Lemma for_range_invariant (P : nat -> list C -> Prop)
    (body : list C -> M (list C)) :
  (forall k acc w acc' w',
      P k acc -> body acc w = (Ok acc', w') -> P (S k) acc') ->
  forall m k acc w total w',
    P k acc -> for_range m body acc w = (Ok total, w') ->
    P (m + k)%nat total.
Proof.
  intros Hstep. induction m as [|m IH]; intros k acc w total w' HP Hrun.
  - cbn in Hrun. injection Hrun as <- _. exact HP.
  - cbn [for_range] in Hrun. unfold bind in Hrun.
    destruct (body acc w) as [[acc1|e] w1] eqn:Hbody; [|discriminate].
    replace (S m + k)%nat with (m + S k)%nat by lia.
    apply (IH (S k) acc1 w1 total w'); [|exact Hrun].
    exact (Hstep k acc w acc1 w1 HP Hbody).
Qed.

Section EnsembleBehaviour.

Context {lib : SurfacePotentialAnalysis}.

Lemma isf_from_hamiltonian_bounded (h : DiagonalOperator)
    (operator : Operator) (initial_state : StateVector) (times : TimeBasis)
    (isf : ValueList) :
  get_isf_from_hamiltonian h operator initial_state times = Ok isf ->
  (forall s b s',
      convert_state_vector_to_basis s b = Ok s' ->
      norm (state_data s') <= norm (state_data s)) ->
  unitary (operator_data operator) ->
  norm (state_data initial_state) <= 1 ->
  forall j, (j < length times)%nat ->
    Cabs (nth j (values_data isf) Czero) <= 1.
Proof.
  intros Hrun Hshrink Hunitary Hunit j Hj.
  destruct (isf_entry _ _ _ _ _ j Hrun Hj)
    as [ci [y [cs [x [z [Hci [Lci [Hy [Ry [Hcs [Lcs [Hx [Rx [Hz ->]]]]]]]]]]]]]].
  set (t := nth j times 0) in *.
  assert (Hleft :
    norm (map2 (fun c e => Cmul c (Cexp_i (- (e * t / hbar))))
               (state_data cs) (diagonal_data h)) <= 1).
  { unfold norm at 1.
    rewrite (norm2_rotated (fun e => - (e * t / hbar))) by exact Lcs.
    fold (norm (state_data cs)).
    apply Rle_trans with (norm (matvec (operator_data operator) (state_data y)));
      [exact (Hshrink _ _ _ Hcs)|].
    apply Rle_trans with (norm (state_data y));
      [apply unitary_norm; assumption|].
    apply Rle_trans with (norm (state_data initial_state));
      [exact (Hshrink _ _ _ Hy) | exact Hunit]. }
  assert (Hright : norm (state_data z) <= 1).
  { apply Rle_trans with (norm (matvec (operator_data operator) (state_data x)));
      [exact (Hshrink _ _ _ Hz)|].
    apply Rle_trans with (norm (state_data x));
      [apply unitary_norm; assumption|].
    apply Rle_trans with (norm (state_data ci)).
    - pose proof (Hshrink _ _ _ Hx) as H. cbn [state_data] in H.
      unfold norm at 2 in H.
      rewrite (norm2_rotated (fun e => - (e * t / hbar))) in H by exact Lci.
      exact H.
    - apply Rle_trans with (norm (state_data initial_state));
        [exact (Hshrink _ _ _ Hci) | exact Hunit]. }
  eapply Rle_trans; [apply cauchy_schwarz|].
  rewrite <- (Rmult_1_r 1).
  apply Rmult_le_compat; try apply norm_nonneg; assumption.
Qed.

(** X8: at a positive temperature, for a Hamiltonian with at least one
    eigenvalue, a unitary scattering operator and conversions that never
    increase a norm, every value of the average [get_average_boltzmann_isf]
    returns for [n >= 1] samples has magnitude at most 1. *)
Theorem averaged_isf_is_bounded
    (system : PeriodicSystem) (config : PeriodicSystemConfig)
    (times : TimeBasis) (direction : tuple1 Z) (temperature : R) (n : Z)
    (w w' : World) (result : ValueList)
    (Hn : (0 < n)%Z)
    (Htemp : 0 < temperature)
    (Hbands : diagonal_data (compiled_hamiltonian system config) <> [])
    (Hunitary : unitary
       (operator_data
          (get_periodic_x_operator
             (fst (diagonal_basis (compiled_hamiltonian system config)))
             direction)))
    (Hshrink : forall s b s',
        convert_state_vector_to_basis s b = Ok s' ->
        norm (state_data s') <= norm (state_data s))
    (Hrun : get_average_boltzmann_isf
              system config times direction temperature n w
            = (Ok result, w')) :
  forall j, (j < length times)%nat ->
    Cabs (nth j (values_data result) Czero) <= 1.
Proof.
  set (h := compiled_hamiltonian system config) in *.
  set (operator := get_periodic_x_operator (fst (diagonal_basis h)) direction)
    in *.
  unfold get_average_boltzmann_isf in Hrun. cbv zeta in Hrun.
  unfold bind at 1 in Hrun. rewrite get_hamiltonian_run in Hrun.
  fold h in Hrun.
  unfold bind at 1 in Hrun. unfold build_periodic_x_operator at 1 in Hrun.
  unfold bind at 1 in Hrun. unfold record at 1, ret at 1 in Hrun.
  fold operator in Hrun.
  unfold bind at 1 in Hrun.
  match type of Hrun with
  | context [for_range ?m ?b ?a ?w0] =>
      destruct (for_range m b a w0) as [[total|e] w1] eqn:Hloop;
        [|discriminate]
  end.
  unfold ret in Hrun. injection Hrun as <- _. cbn [values_data].
  set (P := fun (k : nat) (acc : list C) =>
              length acc = length times
              /\ forall j, (j < length times)%nat ->
                   Cabs (nth j acc Czero) <= INR k).
  assert (Htotal : P (Z.to_nat n + 0)%nat total).
  { refine (for_range_invariant P _ _ _ _ _ _ _ _ _ Hloop).
    - intros k acc w2 acc' w3 [Hlen Hacc] Hbody.
      unfold bind at 1 in Hbody.
      rewrite get_random_boltzmann_state_run in Hbody. cbv zeta in Hbody.
      fold h in Hbody.
      unfold bind at 1 in Hbody. unfold lift at 1 in Hbody.
      match type of Hbody with
      | context [get_isf_from_hamiltonian h operator ?s times] =>
          destruct (get_isf_from_hamiltonian h operator s times)
            as [isf|e] eqn:Hisf; [|discriminate];
          set (state := s) in *
      end.
      unfold ret in Hbody. injection Hbody as <- _.
      destruct (isf_from_hamiltonian_shape _ _ _ _ _ Hisf) as [_ Hshape].
      assert (Hunit : norm (state_data state) <= 1).
      { apply Req_le. unfold state. cbn [state_data].
        apply (weighted_boltzmann_state temperature (diagonal_data h));
          try assumption.
        apply random_phases_weighted.
        rewrite !length_map, length_seq. reflexivity. }
      split; [rewrite map2_length; congruence|].
      intros j Hj.
      rewrite (nth_map2 Cadd acc (values_data isf) j Czero Czero Czero)
        by congruence.
      eapply Rle_trans; [apply Cabs_triangle|].
      rewrite S_INR.
      apply Rplus_le_compat; [apply Hacc; exact Hj|].
      exact (isf_from_hamiltonian_bounded _ _ _ _ _ Hisf Hshrink Hunitary
               Hunit j Hj).
    - split; [apply repeat_length|].
      intros j _. rewrite nth_repeat_zero.
      unfold Cabs, Cnorm2, Czero, RtoC; simpl.
      replace (0 * 0 + 0 * 0) with 0 by ring. rewrite sqrt_0. apply Rle_refl. }
  destruct Htotal as [Hlen Hbound]. rewrite Nat.add_0_r in Hbound.
  assert (Hpos : 0 < IZR n) by (apply IZR_lt; exact Hn).
  intros j Hj.
  rewrite (nth_indep _ Czero (Cdivr Czero (IZR n)))
    by (rewrite length_map, Hlen; exact Hj).
  rewrite (map_nth (fun v => Cdivr v (IZR n)) total Czero j).
  rewrite Cabs_Cdivr by exact Hpos.
  apply Rmult_le_reg_r with (IZR n); [exact Hpos|].
  unfold Rdiv. rewrite Rmult_assoc, Rinv_l, Rmult_1_r, Rmult_1_l
    by (apply Rgt_not_eq; exact Hpos).
  replace (IZR n) with (INR (Z.to_nat n))
    by (rewrite INR_IZR_INZ, Z2Nat.id by lia; reflexivity).
  apply Hbound. exact Hj.
Qed.

End EnsembleBehaviour.

Section EnsembleEdges.

Context {lib : SurfacePotentialAnalysis}.

Lemma for_range_failure system config temperature
    (h : DiagonalOperator) (operator : Operator) (times : TimeBasis)
    (e : Exception) (m : nat) (isfs : list ValueList) (acc : list C)
    (w0 : World) :
  (length isfs < m)%nat ->
  (forall i, (i < length isfs)%nat ->
     exists state,
       fst (get_random_boltzmann_state
              system config temperature
              (world_after_draws system config temperature i w0)) = Ok state
       /\ get_isf_from_hamiltonian h operator state times
          = Ok (nth i isfs no_values)) ->
  (exists state,
     fst (get_random_boltzmann_state
            system config temperature
            (world_after_draws system config temperature (length isfs) w0))
     = Ok state
     /\ get_isf_from_hamiltonian h operator state times = Raise e) ->
  for_range m
    (fun isf_data =>
       (state <- get_random_boltzmann_state system config temperature ;;
        isf <- lift (get_isf_from_hamiltonian h operator state times) ;;
        ret (map2 Cadd isf_data (values_data isf)))%run)
    acc w0
  = (Raise e,
     world_after_draws system config temperature (S (length isfs)) w0).
Proof.
  revert isfs acc w0; induction m as [|m IH]; intros isfs acc w0 Hlt Hok Hfail;
    [lia|].
  destruct isfs as [|v rest].
  - destruct Hfail as [state [Hstate He]].
    cbn [length world_after_draws] in *.
    cbn [for_range]. unfold bind at 1. unfold bind at 1.
    destruct (get_random_boltzmann_state system config temperature w0)
      as [r w1] eqn:Hdraw.
    cbn [fst] in Hstate. subst r.
    unfold bind at 1. unfold lift at 1. rewrite He. reflexivity.
  - destruct (Hok O ltac:(simpl; lia)) as [state [Hstate Hv]].
    cbn [world_after_draws nth] in Hstate, Hv.
    cbn [for_range]. unfold bind at 1. unfold bind at 1.
    destruct (get_random_boltzmann_state system config temperature w0)
      as [r w1] eqn:Hdraw.
    cbn [fst] in Hstate. subst r.
    unfold bind at 1. unfold lift at 1. rewrite Hv. unfold ret at 1.
    rewrite (IH rest); [| simpl in Hlt; lia | |].
    + cbn [length world_after_draws]. rewrite Hdraw. reflexivity.
    + intros i Hi. destruct (Hok (S i) ltac:(simpl; lia)) as [s [Hs Hi']].
      cbn [world_after_draws nth] in Hs, Hi'. rewrite Hdraw in Hs.
      exists s. split; assumption.
    + destruct Hfail as [s [Hs He]].
      cbn [length world_after_draws] in Hs. rewrite Hdraw in Hs.
      exists s. split; assumption.
Qed.

(** X9: when the ISF of some sample raises after the samples before it
    succeeded, [get_average_boltzmann_isf] raises the same exception
    instead of returning the partial sum; by then it has called
    [get_hamiltonian] once itself and once per state drawn, the failing
    one included. *)
Theorem average_fails_as_a_whole
    (system : PeriodicSystem) (config : PeriodicSystemConfig)
    (times : TimeBasis) (direction : tuple1 Z) (temperature : R) (n : Z)
    (w : World) (isfs : list ValueList) (e : Exception)
    (Hearlier : (length isfs < Z.to_nat n)%nat)
    (Hisf : forall i, (i < length isfs)%nat ->
       exists state,
         fst (get_random_boltzmann_state
                system config temperature
                (world_after_draws
                   system config temperature i
                   (logged BuildOperator (logged BuildHamiltonian w))))
         = Ok state
         /\ get_isf_from_hamiltonian
              (compiled_hamiltonian system config)
              (get_periodic_x_operator
                 (fst (diagonal_basis (compiled_hamiltonian system config)))
                 direction)
              state times
            = Ok (nth i isfs no_values))
    (Hfail :
       exists state,
         fst (get_random_boltzmann_state
                system config temperature
                (world_after_draws
                   system config temperature (length isfs)
                   (logged BuildOperator (logged BuildHamiltonian w))))
         = Ok state
         /\ get_isf_from_hamiltonian
              (compiled_hamiltonian system config)
              (get_periodic_x_operator
                 (fst (diagonal_basis (compiled_hamiltonian system config)))
                 direction)
              state times
            = Raise e) :
  let run :=
    get_average_boltzmann_isf system config times direction temperature n w in
  fst run = Raise e
  /\ count_event BuildHamiltonian (trace (snd run))
     = (count_event BuildHamiltonian (trace w) + 2 + length isfs)%nat
  /\ count_event BuildOperator (trace (snd run))
     = (count_event BuildOperator (trace w) + 1)%nat.
Proof.
  set (h := compiled_hamiltonian system config) in *.
  set (operator := get_periodic_x_operator (fst (diagonal_basis h)) direction)
    in *.
  set (w0 := logged BuildOperator (logged BuildHamiltonian w)) in *.
  pose proof (for_range_failure system config temperature h operator times e
                (Z.to_nat n) isfs (repeat Czero (times_n times)) w0
                Hearlier Hisf Hfail) as Hloop.
  assert (Hrun :
    get_average_boltzmann_isf system config times direction temperature n w
    = (Raise e,
       world_after_draws system config temperature (S (length isfs)) w0)).
  { unfold get_average_boltzmann_isf. cbv zeta.
    unfold bind at 1. rewrite get_hamiltonian_run. fold h.
    unfold bind at 1. unfold build_periodic_x_operator at 1.
    unfold bind at 1. unfold record at 1, ret at 1. fold operator. fold w0.
    unfold bind at 1. rewrite Hloop. reflexivity. }
  cbv zeta. rewrite Hrun. cbn [fst snd].
  destruct (world_after_draws_trace system config temperature
              (S (length isfs)) w0) as [Hbuilds [Hops _]].
  rewrite Hbuilds, Hops. unfold w0. cbn [logged trace].
  rewrite !count_event_app.
  change (count_event BuildHamiltonian [BuildHamiltonian]) with 1%nat.
  change (count_event BuildHamiltonian [BuildOperator]) with 0%nat.
  change (count_event BuildOperator [BuildHamiltonian]) with 0%nat.
  change (count_event BuildOperator [BuildOperator]) with 1%nat.
  repeat split; lia.
Qed.

(** X10: for a negative sample count the loop body never runs:
    [get_average_boltzmann_isf] draws no state, builds the Hamiltonian and
    the operator once each, and returns the all-zero sequence over
    [times]. *)
Theorem negative_sample_count_gives_zeros
    (system : PeriodicSystem) (config : PeriodicSystemConfig)
    (times : TimeBasis) (direction : tuple1 Z) (temperature : R) (n : Z)
    (w : World) (Hn : (n < 0)%Z) :
  get_average_boltzmann_isf system config times direction temperature n w
  = (Ok {| values_basis := times;
           values_data := repeat Czero (length times) |},
     logged BuildOperator (logged BuildHamiltonian w)).
Proof.
  unfold get_average_boltzmann_isf. cbv zeta.
  unfold bind at 1. rewrite get_hamiltonian_run.
  unfold bind at 1. unfold build_periodic_x_operator at 1.
  unfold bind at 1. unfold record at 1, ret at 1.
  unfold bind at 1.
  replace (Z.to_nat n) with O by lia. cbn [for_range]. unfold ret.
  f_equal. f_equal. f_equal. unfold times_n.
  induction (length times) as [|l IH]; simpl; [reflexivity|].
  rewrite IH. f_equal.
  apply C_eq; unfold Cdivr, Czero, RtoC, Rdiv; simpl; ring.
Qed.

(** X11: for a state drawn by [get_random_boltzmann_state], [get_isf]
    returns in any run what the averager computes for that sample with the
    Hamiltonian and the operator it built once. *)
Theorem sample_isf_is_get_isf
    (system : PeriodicSystem) (config : PeriodicSystemConfig)
    (times : TimeBasis) (direction : tuple1 Z) (temperature : R)
    (w1 w2 : World) (state : StateVector)
    (Hdraw : fst (get_random_boltzmann_state system config temperature w1)
             = Ok state) :
  fst (get_isf system config state times direction w2)
  = get_isf_from_hamiltonian
      (compiled_hamiltonian system config)
      (get_periodic_x_operator
         (fst (diagonal_basis (compiled_hamiltonian system config)))
         direction)
      state times.
Proof.
  rewrite get_isf_value.
  rewrite get_random_boltzmann_state_run in Hdraw. cbv zeta in Hdraw.
  cbn [fst] in Hdraw. injection Hdraw as <-. reflexivity.
Qed.

(** ** The super-cell potential *)

(** X12: for a positive [shape[0]], when the interpolated unit cell keeps
    at least one component, [get_extended_interpolated_potential] returns
    the interpolated amplitudes, each multiplied by [sqrt (shape[0])], on
    the evenly spaced basis of [shape[0]] cells of [shape[0]] times the
    width; for shape [(1,)] the amplitudes are unchanged. *)
Theorem super_cell_amplitudes_are_rescaled
    (system : PeriodicSystem) (shape resolution : tuple1 Z)
    (Hshape : (0 < item0 shape)%Z)
    (Hkept : basis_n (item0 (potential_basis
                               (get_interpolated_potential system resolution)))
             <> 0%Z) :
  let interpolated := get_interpolated_potential system resolution in
  let old := item0 (potential_basis interpolated) in
  let extended :=
    get_extended_interpolated_potential system shape resolution in
  potential_basis extended
  = TupleBasis
      (EvenlySpacedTransformedPositionBasis
         (map (fun x => x * IZR (item0 shape)) (basis_delta_x old))
         (basis_n old) (item0 shape) 0)
  /\ potential_data extended
     = map (fun v => Cscale v (sqrt (IZR (item0 shape))))
           (potential_data interpolated)
  /\ length (potential_data extended) = length (potential_data interpolated)
  /\ (item0 shape = 1%Z ->
      potential_data extended = potential_data interpolated).
Proof.
  cbv zeta. unfold get_extended_interpolated_potential. cbv zeta.
  cbn [potential_basis potential_data TupleBasis item0 basis_fundamental_n].
  set (interpolated := get_interpolated_potential system resolution) in *.
  set (old := item0 (potential_basis interpolated)) in *.
  assert (Hfactor : IZR (basis_n old * item0 shape) / IZR (basis_n old)
                    = IZR (item0 shape)).
  { rewrite mult_IZR. field. apply not_0_IZR. exact Hkept. }
  rewrite Hfactor.
  split; [reflexivity|]. split; [reflexivity|].
  split; [apply length_map|].
  intros ->. rewrite sqrt_1.
  rewrite <- (map_id (potential_data interpolated)) at 2.
  apply map_ext. intro v. apply C_eq; unfold Cscale; simpl; ring.
Qed.

End EnsembleEdges.

Lemma averaged_isf_is_bounded_witness :
  let run :=
    get_average_boltzmann_isf (lib := band_library)
      HYDROGEN_NICKEL_SYSTEM two_bands [0] (Tuple1 1%Z) 300 1 still_world in
  (0 < 1)%Z /\ 0 < 300
  /\ run = (Ok (value_of no_values (fst run)), snd run)
  /\ Cabs (nth 0 (values_data (value_of no_values (fst run))) Czero) <= 1.
Proof.
  cbv zeta.
  assert (Htemp : 0 < 300) by lra.
  assert (Hrun :
    get_average_boltzmann_isf (lib := band_library)
      HYDROGEN_NICKEL_SYSTEM two_bands [0] (Tuple1 1%Z) 300 1 still_world
    = (Ok (value_of no_values
             (fst (get_average_boltzmann_isf (lib := band_library)
                     HYDROGEN_NICKEL_SYSTEM two_bands [0] (Tuple1 1%Z) 300 1
                     still_world))),
       snd (get_average_boltzmann_isf (lib := band_library)
              HYDROGEN_NICKEL_SYSTEM two_bands [0] (Tuple1 1%Z) 300 1
              still_world)))
    by (vm_compute; reflexivity).
  split; [reflexivity|]. split; [exact Htemp|]. split; [exact Hrun|].
  refine (averaged_isf_is_bounded (lib := band_library)
            HYDROGEN_NICKEL_SYSTEM two_bands [0] (Tuple1 1%Z) 300 1
            still_world _ _ eq_refl Htemp _ _ _ Hrun O _).
  - simpl. discriminate.
  - exact cyclic_shift_2_unitary.
  - intros s b s' H. apply Req_le. f_equal.
    exact (band_library_keeps_amplitudes _ _ _ H).
  - simpl. lia.
Defined.

Lemma average_fails_as_a_whole_witness :
  fst (get_average_boltzmann_isf (lib := refusing_library)
         HYDROGEN_NICKEL_SYSTEM two_bands [0; 1] (Tuple1 1%Z) 300 3
         still_world)
  = Raise BasisMismatch
  /\ count_event BuildHamiltonian
       (trace (snd (get_average_boltzmann_isf (lib := refusing_library)
                      HYDROGEN_NICKEL_SYSTEM two_bands [0; 1] (Tuple1 1%Z)
                      300 3 still_world)))
     = 2%nat.
Proof.
  destruct (average_fails_as_a_whole (lib := refusing_library)
              HYDROGEN_NICKEL_SYSTEM two_bands [0; 1] (Tuple1 1%Z) 300 3
              still_world [] BasisMismatch)
    as [Hraise [Hbuilds _]].
  - simpl. lia.
  - intros i Hi. simpl in Hi. lia.
  - eexists. split; reflexivity.
  - split; [exact Hraise | exact Hbuilds].
Defined.

Lemma negative_sample_count_gives_zeros_witness :
  (-1 < 0)%Z
  /\ get_average_boltzmann_isf (lib := band_library)
       HYDROGEN_NICKEL_SYSTEM two_bands [0; 1] (Tuple1 1%Z) 300 (-1)
       still_world
     = (Ok {| values_basis := [0; 1]; values_data := [Czero; Czero] |},
        logged BuildOperator (logged BuildHamiltonian still_world)).
Proof.
  split; [reflexivity|].
  exact (negative_sample_count_gives_zeros (lib := band_library)
           HYDROGEN_NICKEL_SYSTEM two_bands [0; 1] (Tuple1 1%Z) 300 (-1)
           still_world eq_refl).
Defined.

Lemma sample_isf_is_get_isf_witness :
  let state :=
    value_of ground_state
      (fst (get_random_boltzmann_state (lib := band_library)
              HYDROGEN_NICKEL_SYSTEM two_bands 300 still_world)) in
  fst (get_random_boltzmann_state (lib := band_library)
         HYDROGEN_NICKEL_SYSTEM two_bands 300 still_world) = Ok state
  /\ fst (get_isf (lib := band_library)
            HYDROGEN_NICKEL_SYSTEM two_bands state [0] (Tuple1 1%Z)
            still_world)
     = get_isf_from_hamiltonian (lib := band_library)
         (compiled_hamiltonian (lib := band_library)
            HYDROGEN_NICKEL_SYSTEM two_bands)
         (get_periodic_x_operator (SurfacePotentialAnalysis := band_library)
            (band_basis 2) (Tuple1 1%Z))
         state [0].
Proof.
  intro state.
  assert (Hdraw :
    fst (get_random_boltzmann_state (lib := band_library)
           HYDROGEN_NICKEL_SYSTEM two_bands 300 still_world) = Ok state)
    by reflexivity.
  split; [exact Hdraw|].
  exact (sample_isf_is_get_isf (lib := band_library)
           HYDROGEN_NICKEL_SYSTEM two_bands [0] (Tuple1 1%Z) 300
           still_world still_world state Hdraw).
Defined.

Lemma super_cell_amplitudes_are_rescaled_witness :
  potential_data
    (get_extended_interpolated_potential (lib := band_library)
       HYDROGEN_NICKEL_SYSTEM (Tuple1 2%Z) (Tuple1 3%Z))
  = map (fun v => Cscale v (sqrt 2))
        (potential_data
           (get_interpolated_potential (lib := band_library)
              HYDROGEN_NICKEL_SYSTEM (Tuple1 3%Z))).
Proof.
  destruct (super_cell_amplitudes_are_rescaled (lib := band_library)
              HYDROGEN_NICKEL_SYSTEM (Tuple1 2%Z) (Tuple1 3%Z) eq_refl)
    as [_ [Hdata _]].
  - simpl. discriminate.
  - exact Hdata.
Defined.

(** ** The single-cell Hamiltonian *)

Section SingleCell.

Context {lib : SurfacePotentialAnalysis}.

(** [_get_full_hamiltonian] at shape [(1,)] is the total surface
    Hamiltonian of the interpolated unit-cell potential itself. *)
Lemma single_cell_hamiltonian
    (system : PeriodicSystem) (resolution : tuple1 Z)
    (bloch_fraction : option (list R))
    (Hkept : basis_n (item0 (potential_basis
                               (get_interpolated_potential system resolution)))
             <> 0%Z) :
  let interpolated := get_interpolated_potential system resolution in
  let old := item0 (potential_basis interpolated) in
  let cell :=
    {| potential_basis :=
         TupleBasis
           (EvenlySpacedTransformedPositionBasis
              (basis_delta_x old) (basis_n old) 1 0);
       potential_data := potential_data interpolated |} in
  _get_full_hamiltonian system (Tuple1 1%Z) resolution bloch_fraction
  = total_surface_hamiltonian
      (convert_potential_to_basis
         cell
         (stacked_basis_as_fundamental_position_basis (potential_basis cell)))
      (mass system)
      (match bloch_fraction with
       | None => [0]
       | Some given => given
       end).
Proof.
  cbv zeta.
  set (interpolated := get_interpolated_potential system resolution) in *.
  set (old := item0 (potential_basis interpolated)) in *.
  assert (Hcell :
    get_extended_interpolated_potential system (Tuple1 1%Z) resolution
    = {| potential_basis :=
           TupleBasis
             (EvenlySpacedTransformedPositionBasis
                (basis_delta_x old) (basis_n old) 1 0);
         potential_data := potential_data interpolated |}).
  { unfold get_extended_interpolated_potential. cbv zeta.
    fold interpolated. fold old.
    cbn [potential_basis TupleBasis item0 basis_fundamental_n].
    replace (IZR (basis_n old * 1) / IZR (basis_n old)) with 1
      by (rewrite mult_IZR; field; apply not_0_IZR; exact Hkept).
    rewrite sqrt_1. f_equal.
    - f_equal. f_equal.
      rewrite <- (map_id (basis_delta_x old)) at 2.
      apply map_ext. intro x. ring.
    - rewrite <- (map_id (potential_data interpolated)) at 2.
      apply map_ext. intro v. apply C_eq; unfold Cscale; simpl; ring. }
  unfold _get_full_hamiltonian. cbv zeta. rewrite Hcell. reflexivity.
Qed.

(** X13: when the interpolated unit cell keeps at least one component,
    [_get_bloch_wavefunctions] hands [generate_wavepacket], as the
    Hamiltonian to diagonalise at each Bloch fraction, the total surface
    Hamiltonian of the interpolated unit-cell potential itself at that
    Bloch fraction: width and amplitudes are unchanged (the factor is
    [sqrt (n / n) = 1]), only the basis is relabelled as evenly spaced with
    step 1 and offset 0; [config.shape] only fixes the list basis and
    [config.n_bands] the bands saved. *)
Theorem bloch_wavefunctions_diagonalise_the_unit_cell
    (system : PeriodicSystem) (config : PeriodicSystemConfig)
    (Hkept : basis_n (item0 (potential_basis
                               (get_interpolated_potential
                                  system (resolution config))))
             <> 0%Z) :
  let interpolated := get_interpolated_potential system (resolution config) in
  let old := item0 (potential_basis interpolated) in
  let cell :=
    {| potential_basis :=
         TupleBasis
           (EvenlySpacedTransformedPositionBasis
              (basis_delta_x old) (basis_n old) 1 0);
       potential_data := potential_data interpolated |} in
  _get_bloch_wavefunctions system config
  = generate_wavepacket
      (fun bloch_fraction =>
         total_surface_hamiltonian
           (convert_potential_to_basis
              cell
              (stacked_basis_as_fundamental_position_basis
                 (potential_basis cell)))
           (mass system) bloch_fraction)
      (EvenlySpacedBasis (n_bands config) 1 0)
      (fundamental_stacked_basis_from_shape (shape config)).
Proof.
  cbv zeta. unfold _get_bloch_wavefunctions. f_equal.
  apply functional_extensionality. intro bloch_fraction.
  exact (single_cell_hamiltonian system (resolution config)
           (Some bloch_fraction) Hkept).
Qed.

End SingleCell.

Lemma bloch_wavefunctions_diagonalise_the_unit_cell_witness :
  _get_bloch_wavefunctions (lib := band_library)
    HYDROGEN_NICKEL_SYSTEM two_bands
  = generate_wavepacket (SurfacePotentialAnalysis := band_library)
      (fun bloch_fraction =>
         {| operator_basis :=
              (FundamentalPositionBasis
                 [sqrt 3 * lattice_constant HYDROGEN_NICKEL_SYSTEM / 2] 3,
               FundamentalPositionBasis
                 [sqrt 3 * lattice_constant HYDROGEN_NICKEL_SYSTEM / 2] 3);
            operator_data :=
              map (fun v => [v])
                  (potential_data
                     (get_interpolated_potential (lib := band_library)
                        HYDROGEN_NICKEL_SYSTEM (Tuple1 3%Z))) |})
      (EvenlySpacedBasis 2 1 0)
      (Tuple1 (FundamentalBasis 1)).
Proof.
  rewrite (bloch_wavefunctions_diagonalise_the_unit_cell (lib := band_library)
             HYDROGEN_NICKEL_SYSTEM two_bands).
  - reflexivity.
  - simpl. discriminate.
Defined.

Lemma fixed_phase_state_shares_one_phase_witness :
  300 <> 0
  /\ exists state moduli,
       fst (get_boltzmann_state (lib := band_library)
              HYDROGEN_NICKEL_SYSTEM two_bands 300 1 still_world) = Ok state
       /\ length moduli = 2%nat
       /\ Forall (fun r => 0 <= r) moduli
       /\ state_data state = map (fun r => Cscale (Cexp_i 1) r) moduli.
Proof.
  assert (Htemp : 300 <> 0) by lra.
  split; [exact Htemp|].
  destruct (fixed_phase_state_shares_one_phase (lib := band_library)
              HYDROGEN_NICKEL_SYSTEM two_bands 300 1 still_world Htemp)
    as [state [moduli [Hrun [_ [Hlen [Hpos Hdata]]]]]].
  exists state, moduli. repeat split; assumption.
Defined.
